(** * dlog: multi-line log reassembly and keyword highlighting

    A shallow embedding of the filtering core of [dlog.py] (the body of
    [stream_logs]) together with the fragment of Python's [re] module that
    the program calls: [re.escape], [re.compile], [re.search],
    [Pattern.match] and [re.sub].

    Text is modelled over [ascii], read as the code points U+0000..U+00FF;
    a line is a [string], exactly what [readline] hands to the loop
    (terminator included when the source had one).  The line classifier is
    given on arbitrary code points as well (module [Uni]), and the loop also
    with [re.search] a parameter ([stream_logs_with]), for what holds of
    every keyword. *)

From Stdlib Require Import String Ascii List Bool Arith Lia ZArith DecimalString.
Import ListNotations.

Local Open Scope char_scope.
Local Open Scope list_scope.

(** ** Characters *)

Definition chr (n : nat) : ascii := ascii_of_nat n.
Definition ord (c : ascii) : nat := nat_of_ascii c.

Definition between (lo hi : nat) (c : ascii) : bool :=
  ((lo <=? ord c) && (ord c <=? hi))%nat.

(** [str.isdecimal] on this range: the ten ASCII digits. *)
Definition is_digit (c : ascii) : bool := between 48 57 c.

Definition is_ascii_letter (c : ascii) : bool :=
  between 65 90 c || between 97 122 c.

(** The simple lower-case mapping on U+0000..U+00FF: [A-Z] and the
    accented capitals U+00C0..U+00DE (the sign U+00D7 apart) move up by 32. *)
Definition lower (c : ascii) : ascii :=
  if between 65 90 c || (between 192 222 c && negb (ord c =? 215)%nat)
  then chr (ord c + 32) else c.

Definition char_eqb (ignore_case : bool) (a b : ascii) : bool :=
  if ignore_case then Ascii.eqb (lower a) (lower b) else Ascii.eqb a b.

Definition LF : ascii := "010".
Definition ESC : ascii := "027".

(** ** The [re] fragment *)

Module Re.

(** What a call into [re] does: it returns, raises (a pattern or a
    template that is not well formed: [re.error]), or uses syntax that this
    embedding leaves out. *)
Inductive result (A : Type) : Type :=
| Ok (a : A)
| Raised
| Unmodelled.
Arguments Ok {A} a.
Arguments Raised {A}.
Arguments Unmodelled {A}.

Definition bind {A B} (x : result A) (f : A -> result B) : result B :=
  match x with
  | Ok a => f a
  | Raised => Raised
  | Unmodelled => Unmodelled
  end.

Definition fmap {A B} (f : A -> B) (x : result A) : result B :=
  bind x (fun a => Ok (f a)).

(** *** [re.escape] (Python 3.7 and later): a backslash before each of
    [()[]{}?*+-|^$\.&~#], blank, tab, newline, return, VT and FF. *)
Definition special_chars : list ascii :=
  ["("; ")"; "["; "]"; "{"; "}"; "?"; "*"; "+"; "-"; "|"; "^"; "$"; "\";
   "."; "&"; "~"; "#"; " "; "009"; "010"; "013"; "011"; "012"].

Definition is_special (c : ascii) : bool :=
  existsb (Ascii.eqb c) special_chars.

Fixpoint escape_chars (s : list ascii) : list ascii :=
  match s with
  | [] => []
  | c :: s' =>
      if is_special c then "\" :: c :: escape_chars s'
      else c :: escape_chars s'
  end.

(** *** Parsed patterns *)

(** One-character items: [LITERAL], [ANY] (no newline) and
    [IN [CATEGORY_DIGIT]]. *)
Inductive atom : Type :=
| ALit (c : ascii)
| AAny
| ADigit.

Inductive regex : Type :=
| REmpty
| RAtom (a : atom)
| RRep (lo : nat) (hi : option nat) (a : atom)   (* greedy MAX_REPEAT *)
| RBol                                           (* AT_BEGINNING *)
| REol                                           (* AT_END *)
| RGroup (n : nat) (r : regex)                   (* SUBPATTERN n *)
| RCat (r1 r2 : regex)
| RAlt (r1 r2 : regex).                          (* BRANCH *)

(** Group number and the text it last matched. *)
Definition captures : Type := list (nat * list ascii).

Fixpoint group (n : nat) (caps : captures) : list ascii :=
  match caps with
  | [] => []
  | (i, txt) :: rest => if (i =? n)%nat then txt else group n rest
  end.

(** *** The backtracking matcher *)

Section Matcher.
Variable ignore_case : bool.
(** Length of the whole subject string: position 0 is where that many
    characters are still ahead. *)
Variable total : nat.
Context {R : Type}.

Definition atom_ok (a : atom) (x : ascii) : bool :=
  match a with
  | ALit c => char_eqb ignore_case x c
  | AAny => negb (Ascii.eqb x LF)
  | ADigit => is_digit x
  end.

Definition has_budget (b : option nat) : bool :=
  match b with Some 0 => false | _ => true end.

Definition spend (b : option nat) : option nat := option_map pred b.

(** The mandatory iterations of a repeat. *)
Fixpoint rep_min (a : atom) (n : nat) (s : list ascii)
         (k : list ascii -> option R) : option R :=
  match n with
  | 0 => k s
  | S n' =>
      match s with
      | x :: s' => if atom_ok a x then rep_min a n' s' k else None
      | [] => None
      end
  end.

(** The optional iterations, longest first. *)
Fixpoint rep_max (a : atom) (budget : option nat) (s : list ascii)
         (k : list ascii -> option R) : option R :=
  match s with
  | x :: s' =>
      if atom_ok a x && has_budget budget then
        match rep_max a (spend budget) s' k with
        | Some r => Some r
        | None => k s
        end
      else k s
  | [] => k s
  end.

Fixpoint run (r : regex) (s : list ascii) (caps : captures)
         (k : list ascii -> captures -> option R) : option R :=
  match r with
  | REmpty => k s caps
  | RAtom a =>
      match s with
      | x :: s' => if atom_ok a x then k s' caps else None
      | [] => None
      end
  | RRep lo hi a =>
      rep_min a lo s (fun s1 =>
        rep_max a (option_map (fun h => h - lo) hi) s1 (fun s2 => k s2 caps))
  | RBol => if (length s =? total)%nat then k s caps else None
  | REol =>
      match s with
      | [] => k s caps
      | [x] => if Ascii.eqb x LF then k s caps else None
      | _ => None
      end
  | RGroup n r1 =>
      run r1 s caps (fun s1 c1 =>
        k s1 ((n, firstn (length s - length s1) s) :: c1))
  | RCat r1 r2 => run r1 s caps (fun s1 c1 => run r2 s1 c1 k)
  | RAlt r1 r2 =>
      match run r1 s caps k with
      | Some x => Some x
      | None => run r2 s caps k
      end
  end.
End Matcher.

(** One match attempt at the head of [s]: the length matched and the
    groups.  With [must_advance] an empty match is refused. *)
Definition attempt (ic : bool) (total : nat) (r : regex) (s : list ascii)
           (must_advance : bool) : option (nat * captures) :=
  run ic total r s [] (fun s' caps =>
    if must_advance && (length s' =? length s)%nat then None
    else Some (length s - length s', caps)).

(** The scan of [search]: the first offset at which an attempt succeeds. *)
Fixpoint scan (ic : bool) (total : nat) (r : regex) (s : list ascii)
  : option (nat * captures) :=
  match attempt ic total r s false with
  | Some m => Some m
  | None =>
      match s with
      | [] => None
      | _ :: s' => scan ic total r s'
      end
  end.

Definition is_some {A} (o : option A) : bool :=
  match o with Some _ => true | None => false end.

(** *** The pattern parser

    One pass over the pattern, as [sre_parse] makes it.  A [frame] is a
    sub-pattern being read (the whole pattern, or an open group); the open
    groups around it wait on a stack. *)

Record frame : Type := mkFrame {
  f_group : nat;            (* number of the open group; 0 for the pattern *)
  f_alts : list regex;      (* finished alternatives, last one first *)
  f_items : list regex      (* items of the current alternative, last one first *)
}.

Definition seq_of (items : list regex) : regex := fold_right RCat REmpty items.

Fixpoint branch_of (r : regex) (others : list regex) : regex :=
  match others with
  | [] => r
  | r' :: rest => RAlt r (branch_of r' rest)
  end.

Definition close (f : frame) : regex :=
  match rev (seq_of (rev (f_items f)) :: f_alts f) with
  | [] => REmpty
  | r :: others => branch_of r others
  end.

Definition push (r : regex) (f : frame) : frame :=
  mkFrame (f_group f) (f_alts f) (r :: f_items f).

Definition next_alt (f : frame) : frame :=
  mkFrame (f_group f) (seq_of (rev (f_items f)) :: f_alts f) [].

(** [SPECIAL_CHARS] and [REPEAT_CHARS] of the parser. *)
Inductive kind : Type :=
| KOpen | KClose | KBar | KStar | KPlus | KQuest | KBrace | KSet
| KDot | KCaret | KDollar | KBackslash | KLiteral.

Definition kind_of (c : ascii) : kind :=
  if Ascii.eqb c "(" then KOpen
  else if Ascii.eqb c ")" then KClose
  else if Ascii.eqb c "|" then KBar
  else if Ascii.eqb c "*" then KStar
  else if Ascii.eqb c "+" then KPlus
  else if Ascii.eqb c "?" then KQuest
  else if Ascii.eqb c "{" then KBrace
  else if Ascii.eqb c "[" then KSet
  else if Ascii.eqb c "." then KDot
  else if Ascii.eqb c "^" then KCaret
  else if Ascii.eqb c "$" then KDollar
  else if Ascii.eqb c "\" then KBackslash
  else KLiteral.

Fixpoint span_digits (s : list ascii) : list ascii * list ascii :=
  match s with
  | c :: s' =>
      if is_digit c then let (ds, rest) := span_digits s' in (c :: ds, rest)
      else ([], s)
  | [] => ([], [])
  end.

Definition int_of (ds : list ascii) : nat :=
  fold_left (fun n c => 10 * n + (ord c - 48)) ds 0.

(** What follows a ["{"]: not a quantifier (the brace is a literal), a
    quantifier [{m}], [{m,}], [{,n}] or [{m,n}] together with the number of
    characters it takes, one with [n < m], or one with a count of ten digits
    or more. *)
Inductive brace : Type :=
| BraceLiteral
| BraceRepeat (lo : nat) (hi : option nat) (len : nat)
| BraceBad
| BraceHuge.

Definition parse_brace (s : list ascii) : brace :=
  match s with
  | "}" :: _ => BraceLiteral
  | _ =>
      let (lo, s1) := span_digits s in
      let '(hi, s2, comma) :=
        match s1 with
        | "," :: s1' => let (hi, s2) := span_digits s1' in (hi, s2, true)
        | _ => (lo, s1, false)
        end in
      match s2 with
      | "}" :: _ =>
          if (9 <? length lo)%nat || (9 <? length hi)%nat then BraceHuge
          else
            let min := int_of lo in
            let max := match hi with [] => None | _ => Some (int_of hi) end in
            let len := length lo + (if comma : bool then length hi + 1 else 0) + 1 in
            match max with
            | Some n => if (n <? min)%nat then BraceBad
                        else BraceRepeat min max len
            | None => BraceRepeat min max len
            end
      | _ => BraceLiteral
      end
  end.

(** A quantifier applies to the last item read; [next] is the character
    after the quantifier (["?"] would make it lazy, ["+"] possessive). *)
Definition quantify (lo : nat) (hi : option nat) (next : option ascii)
           (f : frame) : result frame :=
  match f_items f with
  | [] => Raised                         (* nothing to repeat *)
  | RBol :: _ | REol :: _ => Raised      (* nothing to repeat *)
  | RRep _ _ _ :: _ => Raised            (* multiple repeat *)
  | RAtom a :: items =>
      match next with
      | Some "?" | Some "+" => Unmodelled
      | _ => Ok (mkFrame (f_group f) (f_alts f) (RRep lo hi a :: items))
      end
  | _ => Unmodelled
  end.

(** [skip] characters belong to the item just read and are passed over. *)
Fixpoint parse_loop (s : list ascii) (skip : nat) (cur : frame)
         (stack : list frame) (ngroups : nat) : result (regex * nat) :=
  match s with
  | [] =>
      match stack with
      | [] => Ok (close cur, ngroups)
      | _ :: _ => Raised                 (* missing ), unterminated subpattern *)
      end
  | c :: s' =>
      match skip with
      | S n => parse_loop s' n cur stack ngroups
      | 0 =>
          let go_on f := parse_loop s' 0 f stack ngroups in
          let repeat lo hi len :=
            match quantify lo hi (nth_error s' len) cur with
            | Ok f => parse_loop s' len f stack ngroups
            | Raised => Raised
            | Unmodelled => Unmodelled
            end in
          match kind_of c with
          | KOpen =>
              match s' with
              | "?" :: _ => Unmodelled   (* extension syntax *)
              | _ => parse_loop s' 0 (mkFrame (S ngroups) [] [])
                                (cur :: stack) (S ngroups)
              end
          | KClose =>
              match stack with
              | [] => Raised             (* unbalanced parenthesis *)
              | parent :: stack' =>
                  parse_loop s' 0 (push (RGroup (f_group cur) (close cur)) parent)
                             stack' ngroups
              end
          | KBar => go_on (next_alt cur)
          | KStar => repeat 0 None 0
          | KPlus => repeat 1 None 0
          | KQuest => repeat 0 (Some 1) 0
          | KBrace =>
              match parse_brace s' with
              | BraceLiteral => go_on (push (RAtom (ALit c)) cur)
              | BraceRepeat lo hi len => repeat lo hi len
              | BraceBad => Raised       (* min repeat greater than max repeat *)
              | BraceHuge => Unmodelled
              end
          | KSet => Unmodelled
          | KDot => go_on (push (RAtom AAny) cur)
          | KCaret => go_on (push RBol cur)
          | KDollar => go_on (push REol cur)
          | KBackslash =>
              match s' with
              | [] => Raised             (* bad escape (end of pattern) *)
              | e :: _ =>
                  if Ascii.eqb e "d" then
                    parse_loop s' 1 (push (RAtom ADigit) cur) stack ngroups
                  else if is_ascii_letter e || is_digit e then Unmodelled
                  else parse_loop s' 1 (push (RAtom (ALit e)) cur) stack ngroups
              end
          | KLiteral => go_on (push (RAtom (ALit c)) cur)
          end
      end
  end.

(** [sre_parse.parse]: the parsed pattern and its number of groups. *)
Definition parse (pattern : list ascii) : result (regex * nat) :=
  parse_loop pattern 0 (mkFrame 0 [] []) [] 0.

(** *** Replacement templates

    Ordinary characters and references [\1] .. [\9] to a group (a
    reference to a group the pattern does not have raises). *)
Inductive titem : Type :=
| TChar (c : ascii)
| TGroup (n : nat).

Fixpoint parse_template (t : list ascii) (skip : nat) (ngroups : nat)
  : result (list titem) :=
  match t with
  | [] => Ok []
  | c :: t' =>
      match skip with
      | S n => parse_template t' n ngroups
      | 0 =>
          if Ascii.eqb c "\" then
            match t' with
            | d :: rest =>
                if is_digit d && negb (Ascii.eqb d "0") &&
                   negb (match rest with d' :: _ => is_digit d' | [] => false end)
                then
                  if (ord d - 48 <=? ngroups)%nat
                  then fmap (cons (TGroup (ord d - 48)))
                            (parse_template t' 1 ngroups)
                  else Raised            (* invalid group reference *)
                else Unmodelled
            | [] => Raised               (* bad escape (end of pattern) *)
            end
          else fmap (cons (TChar c)) (parse_template t' 0 ngroups)
      end
  end.

Definition expand_item (caps : captures) (i : titem) : list ascii :=
  match i with
  | TChar c => [c]
  | TGroup n => group n caps
  end.

Definition expand (tpl : list titem) (caps : captures) : list ascii :=
  flat_map (expand_item caps) tpl.

(** *** The substitution loop of [re.sub] (Python 3.7 and later)

    Left to right, each match replaced by the expanded template, the text
    between matches copied.  After an empty match the next one at that place
    has to advance; [skip] characters lie inside the match just replaced. *)
Fixpoint sub_loop (ic : bool) (total : nat) (r : regex) (tpl : list titem)
         (s : list ascii) (skip : nat) : list ascii :=
  match skip with
  | S n =>
      match s with
      | _ :: s' => sub_loop ic total r tpl s' n
      | [] => []
      end
  | 0 =>
      let copy :=
        match s with
        | c :: s' => c :: sub_loop ic total r tpl s' 0
        | [] => []
        end in
      let inside n :=
        match s with
        | _ :: s' => sub_loop ic total r tpl s' n
        | [] => []
        end in
      match attempt ic total r s false with
      | Some (S n, caps) => expand tpl caps ++ inside n
      | Some (0, caps) =>
          expand tpl caps ++
          match attempt ic total r s true with
          | Some (S n, caps') => expand tpl caps' ++ inside n
          | _ => copy
          end
      | None => copy
      end
  end.

(** *** The calls the program makes *)

Definition chars (s : string) : list ascii := list_ascii_of_string s.
Definition text (l : list ascii) : string := string_of_list_ascii l.

Definition escape (s : string) : string := text (escape_chars (chars s)).

(** [re.compile(pattern, flags)]; the flag [re.IGNORECASE] stays with the
    compiled pattern. *)
Record pattern : Type := mkPattern {
  p_regex : regex;
  p_groups : nat;
  p_ignore_case : bool
}.

Definition compile (pat : string) (ignore_case : bool) : result pattern :=
  fmap (fun '(r, n) => mkPattern r n ignore_case) (parse (chars pat)).

(** [Pattern.search(line)] as a truth value. *)
Definition p_search (p : pattern) (line : string) : bool :=
  let s := chars line in
  is_some (scan (p_ignore_case p) (length s) (p_regex p) s).

(** [Pattern.match(line)] as a truth value: an attempt at offset 0 only. *)
Definition p_match (p : pattern) (line : string) : bool :=
  let s := chars line in
  is_some (attempt (p_ignore_case p) (length s) (p_regex p) s false).

(** [bool(re.search(pattern, line, flags))]. *)
Definition search (pat line : string) (ignore_case : bool) : result bool :=
  fmap (fun p => p_search p line) (compile pat ignore_case).

(** [re.sub(pattern, repl, line, flags=flags)]. *)
Definition sub (pat repl line : string) (ignore_case : bool) : result string :=
  bind (compile pat ignore_case) (fun p =>
  bind (parse_template (chars repl) 0 (p_groups p)) (fun tpl =>
  let s := chars line in
  Ok (text (sub_loop ignore_case (length s) (p_regex p) tpl s 0)))).

End Re.

(** ** The program *)

Local Open Scope string_scope.

Definition COLOR_YELLOW : string := String ESC "[93m".
Definition COLOR_RESET : string := String ESC "[0m".

(** [date_pattern = re.compile(r'^\d{4}-\d{2}-\d{2}')], compiled once. *)
Definition date_pattern_source : string := "^\d{4}-\d{2}-\d{2}".

Definition date_pattern : Re.pattern :=
  Eval vm_compute in
    match Re.compile date_pattern_source false with
    | Re.Ok p => p
    | _ => Re.mkPattern Re.REmpty 0 false
    end.

(** [bool(date_pattern.match(line))] *)
Definition is_new_log_entry (line : string) : bool :=
  Re.p_match date_pattern line.

(** The four identical calls
    [re.sub(f'({re.escape(keyword)})', f'{COLOR_YELLOW}\\1{COLOR_RESET}', line, flags=regex_flags)]. *)
Definition highlight (keyword : string) (ignore_case : bool) (line : string)
  : Re.result string :=
  Re.sub ("(" ++ Re.escape keyword ++ ")")
         (COLOR_YELLOW ++ "\1" ++ COLOR_RESET)
         line ignore_case.

(** [bool(re.search(keyword, line, regex_flags))]: the keyword goes to
    [re.search] as it is. *)
Definition line_matches (keyword : string) (ignore_case : bool) (line : string)
  : Re.result bool :=
  Re.search keyword line ignore_case.

(** Truth value of a string, and of the optional keyword. *)
Definition truthy (s : string) : bool :=
  match s with EmptyString => false | String _ _ => true end.

Definition has_keyword (keyword : option string) : bool :=
  match keyword with Some k => truthy k | None => false end.

(** *** Printing and raising

    A computation writes strings to standard output and then returns,
    raises, or leaves the model. *)
Definition M (A : Type) : Type := list string * Re.result A.

Definition ret {A} (a : A) : M A := ([], Re.Ok a).

Definition mbind {A B} (m : M A) (f : A -> M B) : M B :=
  match m with
  | (out, Re.Ok a) => let (out', r) := f a in (out ++ out', r)%list
  | (out, Re.Raised) => (out, Re.Raised)
  | (out, Re.Unmodelled) => (out, Re.Unmodelled)
  end.

Definition print (s : string) : M unit := ([s], Re.Ok tt).

Definition call {A} (r : Re.result A) : M A := ([], r).

Notation "x <- c1 ;; c2" := (mbind c1 (fun x => c2))
  (at level 61, c1 at next level, right associativity).
Notation "c1 ;;; c2" := (mbind c1 (fun _ => c2))
  (at level 61, right associativity).

(** The two variables the loop carries. *)
Record vars : Type := mkVars {
  previous_line : string;
  previous_line_matches : bool
}.

Definition initial : vars := mkVars "" false.

(** [print(highlighted_line, end='')] *)
Definition print_highlighted (keyword : string) (ignore_case : bool)
           (line : string) : M unit :=
  highlighted_line <- call (highlight keyword ignore_case line) ;;
  print highlighted_line.

(** One turn of [for line in iter(process.stdout.readline, '')]. *)
Definition iteration (keyword : option string) (ignore_case : bool)
           (v : vars) (line : string) : M vars :=
  let is_new := is_new_log_entry line in
  match keyword with
  | Some kw =>
      if negb (truthy kw) then print line ;;; ret v
      else
        v1 <- (if is_new && truthy (previous_line v) then
                 (if previous_line_matches v
                  then print_highlighted kw ignore_case (previous_line v)
                  else ret tt) ;;;
                 ret (mkVars "" false)
               else ret v) ;;
        current_line_matches <- call (line_matches kw ignore_case line) ;;
        if is_new then ret (mkVars line current_line_matches)
        else if previous_line_matches v1 || current_line_matches then
          v2 <- (if truthy (previous_line v1) then
                   print_highlighted kw ignore_case (previous_line v1) ;;;
                   ret (mkVars "" (previous_line_matches v1))
                 else ret v1) ;;
          print_highlighted kw ignore_case line ;;;
          ret (mkVars (previous_line v2) true)
        else ret v1
  | None => print line ;;; ret v
  end.

Fixpoint loop (keyword : option string) (ignore_case : bool) (v : vars)
         (lines : list string) : M vars :=
  match lines with
  | [] => ret v
  | line :: rest =>
      v' <- iteration keyword ignore_case v line ;;
      loop keyword ignore_case v' rest
  end.

(** The lines after the loop: the cached line, when it matched. *)
Definition last_line (keyword : option string) (ignore_case : bool) (v : vars)
  : M unit :=
  if truthy (previous_line v) && previous_line_matches v then
    match keyword with
    | Some kw => print_highlighted kw ignore_case (previous_line v)
    | None => call Re.Raised       (* [re.escape(None)]: TypeError *)
    end
  else ret tt.

(** The filtering part of [stream_logs]: what reaches standard output for
    the lines read, and how the [try] block ends ([Raised]: in the handler
    [except Exception]). *)
Definition stream_logs (keyword : option string) (ignore_case : bool)
           (lines : list string) : M unit :=
  v <- loop keyword ignore_case initial lines ;;
  last_line keyword ignore_case v.

Definition stdout {A} (m : M A) : list string := fst m.

(** ** The loop, whatever [re.search] does

    The same loop with [re.search] a parameter: [re_search keyword line
    ignore_case] is what [bool(re.search(keyword, line, regex_flags))] comes
    to, a truth value or an exception.  Nothing is assumed of it, so what is
    proved of [stream_logs_with] holds for every keyword, also one written
    with syntax that [Re.parse] leaves out.  [stream_logs] is
    [stream_logs_with Re.search]. *)
Section AnySearch.
Variable re_search : string -> string -> bool -> Re.result bool.

Definition iteration_with (keyword : option string) (ignore_case : bool)
           (v : vars) (line : string) : M vars :=
  let is_new := is_new_log_entry line in
  match keyword with
  | Some kw =>
      if negb (truthy kw) then print line ;;; ret v
      else
        v1 <- (if is_new && truthy (previous_line v) then
                 (if previous_line_matches v
                  then print_highlighted kw ignore_case (previous_line v)
                  else ret tt) ;;;
                 ret (mkVars "" false)
               else ret v) ;;
        current_line_matches <- call (re_search kw line ignore_case) ;;
        if is_new then ret (mkVars line current_line_matches)
        else if previous_line_matches v1 || current_line_matches then
          v2 <- (if truthy (previous_line v1) then
                   print_highlighted kw ignore_case (previous_line v1) ;;;
                   ret (mkVars "" (previous_line_matches v1))
                 else ret v1) ;;
          print_highlighted kw ignore_case line ;;;
          ret (mkVars (previous_line v2) true)
        else ret v1
  | None => print line ;;; ret v
  end.

Fixpoint loop_with (keyword : option string) (ignore_case : bool) (v : vars)
         (lines : list string) : M vars :=
  match lines with
  | [] => ret v
  | line :: rest =>
      v' <- iteration_with keyword ignore_case v line ;;
      loop_with keyword ignore_case v' rest
  end.

Definition stream_logs_with (keyword : option string) (ignore_case : bool)
           (lines : list string) : M unit :=
  v <- loop_with keyword ignore_case initial lines ;;
  last_line keyword ignore_case v.
End AnySearch.

(** The match test returns on [line]; it returns true on [line]. *)
Definition returns (re_search : string -> string -> bool -> Re.result bool)
           (kw : string) (ic : bool) (line : string) : bool :=
  match re_search kw line ic with Re.Ok _ => true | _ => false end.

Definition accepts (re_search : string -> string -> bool -> Re.result bool)
           (kw : string) (ic : bool) (line : string) : bool :=
  match re_search kw line ic with Re.Ok true => true | _ => false end.

(** On [line] both match tests return, and the second accepts it if the
    first does. *)
Definition no_less (re_search : string -> string -> bool -> Re.result bool)
           (kw : string) (ic : bool) (kw' : string) (ic' : bool)
           (line : string) : bool :=
  match re_search kw line ic, re_search kw' line ic' with
  | Re.Ok b, Re.Ok b' => implb b b'
  | _, _ => false
  end.

(** ** Vocabulary of the specification *)

Module Spec.
Local Open Scope char_scope.
Local Open Scope list_scope.

(** The keyword [k] is written at the head of [s], letter case set aside
    when [ignore_case] holds. *)
Fixpoint starts_with (ignore_case : bool) (k s : list ascii) : bool :=
  match k, s with
  | [], _ => true
  | c :: k', x :: s' => char_eqb ignore_case x c && starts_with ignore_case k' s'
  | _ :: _, [] => false
  end.

(** [k] occurs in [s] as a literal substring. *)
Fixpoint occurs (ignore_case : bool) (k s : list ascii) : bool :=
  starts_with ignore_case k s ||
  match s with
  | [] => false
  | _ :: s' => occurs ignore_case k s'
  end.







(** The ten decimal digits, and a date token [DDDD-DD-DD] at offset 0. *)
Definition decimal (c : ascii) : Prop := In c (Re.chars "0123456789").

Definition date_prefix (line : string) : Prop :=
  exists d1 d2 d3 d4 d5 d6 d7 d8 rest,
    Re.chars line = [d1; d2; d3; d4; "-"; d5; d6; "-"; d7; d8] ++ rest /\
    Forall decimal [d1; d2; d3; d4; d5; d6; d7; d8].

(** [subsequence sel l]: [sel] picks positions of [l], each at most once,
    in their order. *)
Inductive subsequence {A : Type} : list A -> list A -> Prop :=
| subsequence_nil : subsequence [] []
| subsequence_skip (x : A) (sel l : list A) :
    subsequence sel l -> subsequence sel (x :: l)
| subsequence_take (x : A) (sel l : list A) :
    subsequence sel l -> subsequence (x :: sel) (x :: l).

End Spec.

(** ** The highlighting pattern and template, once compiled *)

Definition lit (c : ascii) : Re.regex := Re.RAtom (Re.ALit c).

(** The pattern ['(' + re.escape(keyword) + ')'] is one group around the
    keyword's characters, each a literal. *)
Definition keyword_regex (K : list ascii) : Re.regex :=
  Re.RCat (Re.RGroup 1 (Re.seq_of (map lit K))) Re.REmpty.

Definition highlight_template : list Re.titem :=
  (map Re.TChar (Re.chars COLOR_YELLOW) ++ [Re.TGroup 1] ++
   map Re.TChar (Re.chars COLOR_RESET))%list.

(** What the four [re.sub] calls return (see [highlight_returns]). *)
Definition highlighted (keyword : string) (ignore_case : bool) (line : string)
  : string :=
  let s := Re.chars line in
  Re.text (Re.sub_loop ignore_case (length s) (keyword_regex (Re.chars keyword))
                       highlight_template s 0).

(** ** The loop when the keyword compiles

    With [matches] the truth value of [re.search(keyword, line, flags)] and
    [hl] what [re.sub] returns, one turn of the loop prints and updates as
    [turn] says (lemma [iteration_compiled]). *)
Section Compiled.
Variable matches : string -> bool.
Variable hl : string -> string.

(** The header held back, if any. *)
Definition buffered (v : vars) : list string :=
  if truthy (previous_line v) then [previous_line v] else [].

(** What the end of the stream, or the next header, prints for the
    pending entry. *)
Definition end_flush (v : vars) : list string :=
  if truthy (previous_line v) && previous_line_matches v
  then [hl (previous_line v)] else [].

Definition turn (v : vars) (line : string) : list string * vars :=
  if is_new_log_entry line then
    (end_flush v, mkVars line (matches line))
  else if previous_line_matches v || matches line then
    ((map hl (buffered v) ++ [hl line])%list, mkVars "" true)
  else ([], v).

Fixpoint turns (v : vars) (lines : list string) : list string * vars :=
  match lines with
  | [] => ([], v)
  | line :: rest =>
      let (out, v1) := turn v line in
      let (out', v2) := turns v1 rest in
      ((out ++ out')%list, v2)
  end.

Definition out_of (lines : list string) : list string :=
  let (out, v) := turns initial lines in (out ++ end_flush v)%list.

(** *** The specification's view: one logical entry at a time *)

(** The continuation lines from the first matching one on. *)
Fixpoint from_first_match (conts : list string) : list string :=
  match conts with
  | [] => []
  | c :: rest => if matches c then conts else from_first_match rest
  end.

(** What a whole entry (header [h], continuation lines [conts]) puts
    out: nothing, or the header once and then continuation lines. *)
Definition entry_output (h : string) (conts : list string) : list string :=
  if matches h then hl h :: map hl conts
  else
    match from_first_match conts with
    | [] => []
    | shown => hl h :: map hl shown
    end.

(** What the end of the stream adds, read off the input. *)
Definition stream_end_output (lines : list string) : list string :=
  match rev lines with
  | h :: _ => if is_new_log_entry h && matches h then [hl h] else []
  | [] => []
  end.
End Compiled.

(** The lines of the worked example of the specification. *)
Definition example_header : string := "2024-01-01 INFO start".
Definition example_frame1 : string := "  at foo()".
Definition example_frame2 : string := "  at bar(): ERROR".
Definition example_entry : list string :=
  [example_header; example_frame1; example_frame2].

(** [re.compile("ERROR")], for the worked example. *)
Definition error_pattern : Re.pattern :=
  Eval vm_compute in
    match Re.compile "ERROR" false with
    | Re.Ok p => p
    | _ => Re.mkPattern Re.REmpty 0 false
    end.


(** [DDDD-DD-DD] at offset 0, as a test. *)
Definition date_prefixb (s : list ascii) : bool :=
  match s with
  | d1 :: d2 :: d3 :: d4 :: h1 :: d5 :: d6 :: h2 :: d7 :: d8 :: _ =>
      is_digit d1 && is_digit d2 && is_digit d3 && is_digit d4 &&
      Ascii.eqb h1 "-" && is_digit d5 && is_digit d6 &&
      Ascii.eqb h2 "-" && is_digit d7 && is_digit d8
  | _ => false
  end.



(** ** Two runs on the same lines, the second with a match test that
    accepts more

    [ahead v v']: the loop variables of the two runs agree, or the second
    run has its flag set and the first has not; then the second has the same
    header cached, or has printed it already.  [debt v v'] is that header:
    printed by the second run, still cached by the first. *)
Definition ahead (v v' : vars) : Prop :=
  v = v' \/
  (previous_line_matches v = false /\ previous_line_matches v' = true /\
   (previous_line v' = previous_line v \/ previous_line v' = "")).

Definition debt (v v' : vars) : list string :=
  if truthy (previous_line v') then [] else buffered v.

(** ** The rest of the program

    The calls of [str] methods, then [get_ssh_target], [find_service_name],
    the command line of [stream_logs] and [main].  What the program asks of
    the outside (the configuration file, the two [ssh] processes) is a
    parameter; what it writes to standard error is recorded as a [message],
    the constructor saying which [print] it is. *)

Module Cli.
Local Open Scope string_scope.

(** *** [str] *)

(** [str.isspace] on this range. *)
Definition is_space (c : ascii) : bool :=
  between 9 13 c || between 28 32 c ||
  (ord c =? 133)%nat || (ord c =? 160)%nat.

Fixpoint lstrip (s : list ascii) : list ascii :=
  match s with
  | c :: s' => if is_space c then lstrip s' else s
  | [] => []
  end.

(** [s.strip()] *)
Definition str_strip (s : string) : string :=
  Re.text (rev (lstrip (rev (lstrip (Re.chars s))))).

(** [s.split(sep)] for a separator of one character. *)
Fixpoint split_chars (sep : ascii) (s : list ascii) : list (list ascii) :=
  match s with
  | [] => [[]]
  | c :: s' =>
      if Ascii.eqb c sep then [] :: split_chars sep s'
      else
        match split_chars sep s' with
        | w :: ws => (c :: w) :: ws
        | [] => [[c]]
        end
  end.

Definition str_split (sep : ascii) (s : string) : list string :=
  map Re.text (split_chars sep (Re.chars s)).

(** [sub in s] *)
Definition str_in (sub s : string) : bool :=
  Spec.occurs false (Re.chars sub) (Re.chars s).

(** [str(n)] for an [int]. *)
Definition str_int (n : Z) : string := NilZero.string_of_int (Z.to_int n).

(** *** Messages and endings *)

Inductive message : Type :=
| TargetNotSpecified                                     (* lines 36-39 *)
| NoServiceFound (partial_name ssh_target : string)      (* line 57 *)
| AmbiguousService (partial_name : string) (matches : list string) (* line 61 *)
| RemoteCommandFailed (ssh_target stderr : string)       (* line 67 *)
| SshNotFound                                            (* line 70 *)
| StreamingFailed (service_name stderr : string)         (* line 170 *)
| UnexpectedError                                        (* line 176 *)
| ServiceNameRequired.                                   (* line 210 *)

(** How a call ends: it returns, it leaves through [sys.exit] after a
    message, or an exception leaves it. *)
Inductive outcome (A : Type) : Type :=
| Returns (a : A)
| Exits (status : Z) (why : message)
| Propagates.
Arguments Returns {A} a.
Arguments Exits {A} status why.
Arguments Propagates {A}.

(** *** [get_ssh_target] *)

(** What reading [dlog.conf] comes to: no file; the value of [target] in
    section [default]; a [KeyError] or [ValueError] from [parser.get]; any
    other exception from [parser.read] or [parser.get]. *)
Inductive config_state : Type :=
| NoConfigFile
| ConfigTarget (target : string)
| ConfigKeyOrValueError
| ConfigOtherError.

Definition get_ssh_target (config : config_state)
           (ssh_target_arg : option string) : outcome string :=
  match ssh_target_arg with
  | Some arg => if truthy arg then Returns arg else
      match config with
      | ConfigTarget target => Returns target
      | ConfigOtherError => Propagates
      | NoConfigFile | ConfigKeyOrValueError => Exits 1 TargetNotSpecified
      end
  | None =>
      match config with
      | ConfigTarget target => Returns target
      | ConfigOtherError => Propagates
      | NoConfigFile | ConfigKeyOrValueError => Exits 1 TargetNotSpecified
      end
  end.

(** *** [find_service_name] *)

(** What [subprocess.check_output] does. *)
Inductive check_output_result : Type :=
| Output (stdout : string)
| CalledProcessError (stderr : string)
| FileNotFoundError
| OtherException.

Definition docker_cmd : string := "docker service ls --format '{{.Name}}'".

Definition find_service_name
           (check_output : list string -> check_output_result)
           (ssh_target partial_name : string) : outcome string :=
  let ssh_cmd := ["ssh"; ssh_target; docker_cmd] in
  match check_output ssh_cmd with
  | Output result =>
      let service_names := str_split LF (str_strip result) in
      let matches :=
        filter (fun name => str_in partial_name name) service_names in
      if (length matches =? 0)%nat then
        Exits 1 (NoServiceFound partial_name ssh_target)
      else if (1 <? length matches)%nat then
        Exits 1 (AmbiguousService partial_name matches)
      else Returns (nth 0 matches "")
  | CalledProcessError stderr => Exits 1 (RemoteCommandFailed ssh_target stderr)
  | FileNotFoundError => Exits 1 SshNotFound
  | OtherException => Propagates
  end.

(** *** [stream_logs]: the command, the process, the filter *)

(** Truth value and [str] of [lines] ([None] or an [int]). *)
Definition int_truthy (lines : option Z) : bool :=
  match lines with
  | Some n => negb (n =? 0)%Z
  | None => false
  end.

Definition str_lines (lines : option Z) : string :=
  match lines with
  | Some n => str_int n
  | None => "None"
  end.

Definition docker_command_parts (service_name : string) (lines : option Z)
           (follow : bool) : list string :=
  let parts := ["docker"; "service"; "logs"; "--raw"] in
  let parts :=
    if follow then
      ((parts ++ ["-f"]) ++
       ["--tail"; if int_truthy lines then str_lines lines else "10"])%list
    else if int_truthy lines then (parts ++ ["--tail"; str_lines lines])%list
    else parts in
  (parts ++ [service_name])%list.

Definition docker_command_str (service_name : string) (lines : option Z)
           (follow : bool) : string :=
  String.concat " " (docker_command_parts service_name lines follow).

Definition ssh_command (ssh_target service_name : string) (lines : option Z)
           (follow : bool) : list string :=
  ["ssh"; ssh_target; docker_command_str service_name lines follow].

(** What [subprocess.Popen] and the process do.  [Popen] raises; or
    [process.stdout.readline] returns [lines] one after the other and then
    [''], and the process ends with [stderr] and [returncode]; or [readline]
    returns [lines] and then raises (bytes that are not UTF-8).  The [lines]
    are what [readline] returns in text mode: the output of the process
    decoded as UTF-8, with CR LF and CR turned into LF.  An interrupt from
    the keyboard is not modelled. *)
Inductive popen_result : Type :=
| PopenRaises
| Process (lines : list string) (stderr : string) (returncode : Z)
| ReadRaises (lines : list string).

Inductive ending : Type :=
| Completed                (* the function returns; for [main], status 0 *)
| Exited (status : Z)
| Uncaught
| OutsideModel.

Record run : Type := mkRun {
  run_stdout : list string;
  run_stderr : list message;
  run_end : ending
}.

(** The whole of [stream_logs], for a process that ends. *)
Definition stream_logs_call (popen : list string -> popen_result)
           (ssh_target service_name : string) (keyword : option string)
           (lines : option Z) (follow ignore_case : bool) : run :=
  match popen (ssh_command ssh_target service_name lines follow) with
  | PopenRaises => mkRun [] [UnexpectedError] Completed
  | Process out stderr returncode =>
      match stream_logs keyword ignore_case out with
      | (printed, Re.Ok _) =>
          mkRun printed
                (if negb (returncode =? 0)%Z then
                   if negb (str_in "Killed by signal" stderr) &&
                      negb (returncode =? 130)%Z
                   then [StreamingFailed service_name stderr] else []
                 else [])
                Completed
      | (printed, Re.Raised) => mkRun printed [UnexpectedError] Completed
      | (printed, Re.Unmodelled) => mkRun printed [] OutsideModel
      end
  | ReadRaises out =>
      match loop keyword ignore_case initial out with
      | (printed, Re.Unmodelled) => mkRun printed [] OutsideModel
      | (printed, _) => mkRun printed [UnexpectedError] Completed
      end
  end.

(** The same with [re.search] a parameter. *)
Definition stream_logs_call_with
           (re_search : string -> string -> bool -> Re.result bool)
           (popen : list string -> popen_result)
           (ssh_target service_name : string) (keyword : option string)
           (lines : option Z) (follow ignore_case : bool) : run :=
  match popen (ssh_command ssh_target service_name lines follow) with
  | PopenRaises => mkRun [] [UnexpectedError] Completed
  | Process out stderr returncode =>
      match stream_logs_with re_search keyword ignore_case out with
      | (printed, Re.Ok _) =>
          mkRun printed
                (if negb (returncode =? 0)%Z then
                   if negb (str_in "Killed by signal" stderr) &&
                      negb (returncode =? 130)%Z
                   then [StreamingFailed service_name stderr] else []
                 else [])
                Completed
      | (printed, Re.Raised) => mkRun printed [UnexpectedError] Completed
      | (printed, Re.Unmodelled) => mkRun printed [] OutsideModel
      end
  | ReadRaises out =>
      match loop_with re_search keyword ignore_case initial out with
      | (printed, Re.Unmodelled) => mkRun printed [] OutsideModel
      | (printed, _) => mkRun printed [UnexpectedError] Completed
      end
  end.

(** *** [main], from line 193 on

    [parser.parse_args()] has returned: what it does by itself ([-h], a
    malformed command line) comes before and is not part of [main] here. *)

(** The result of [parser.parse_args()]. *)
Record args : Type := mkArgs {
  target_or_service : string;
  service_or_keyword : option string;
  keyword : option string;
  lines : Z;
  follow : bool;
  ignore_case : bool
}.

Record world : Type := mkWorld {
  config : config_state;
  check_output : list string -> check_output_result;
  popen : list string -> popen_result
}.

(** The line [print]ed before the logs. *)
Definition banner (full_service_name ssh_target : string) : string :=
  "--- Streaming logs for service: " ++ COLOR_YELLOW ++ full_service_name ++
  COLOR_RESET ++ " on host: " ++ COLOR_YELLOW ++ ssh_target ++ COLOR_RESET ++
  " ---" ++ String LF "".

Definition stopped {A} (o : outcome A) : run :=
  match o with
  | Exits status why => mkRun [] [why] (Exited status)
  | _ => mkRun [] [] Uncaught
  end.

Definition main (w : world) (a : args) : run :=
  let routed : outcome (string * option string * option string) :=
    if str_in "@" (target_or_service a) then
      Returns (target_or_service a, service_or_keyword a, keyword a)
    else
      match get_ssh_target (config w) None with
      | Returns ssh_target =>
          Returns (ssh_target, Some (target_or_service a), service_or_keyword a)
      | Exits status why => Exits status why
      | Propagates => Propagates
      end in
  match routed with
  | Returns (ssh_target, Some service, kw) =>
      if negb (truthy service) then mkRun [] [ServiceNameRequired] (Exited 2)
      else
        match find_service_name (check_output w) ssh_target service with
        | Returns full_service_name =>
            let r := stream_logs_call (popen w) ssh_target full_service_name kw
                       (Some (lines a)) (follow a) (ignore_case a) in
            mkRun (banner full_service_name ssh_target :: run_stdout r)
                  (run_stderr r) (run_end r)
        | o => stopped o
        end
  | Returns (_, None, _) => mkRun [] [ServiceNameRequired] (Exited 2)
  | o => stopped o
  end.

(** [main] from the parsed arguments on, with [re.search] a parameter. *)
Definition main_with
           (re_search : string -> string -> bool -> Re.result bool)
           (w : world) (a : args) : run :=
  let routed : outcome (string * option string * option string) :=
    if str_in "@" (target_or_service a) then
      Returns (target_or_service a, service_or_keyword a, keyword a)
    else
      match get_ssh_target (config w) None with
      | Returns ssh_target =>
          Returns (ssh_target, Some (target_or_service a), service_or_keyword a)
      | Exits status why => Exits status why
      | Propagates => Propagates
      end in
  match routed with
  | Returns (ssh_target, Some service, kw) =>
      if negb (truthy service) then mkRun [] [ServiceNameRequired] (Exited 2)
      else
        match find_service_name (check_output w) ssh_target service with
        | Returns full_service_name =>
            let r := stream_logs_call_with re_search (popen w) ssh_target full_service_name kw
                       (Some (lines a)) (follow a) (ignore_case a) in
            mkRun (banner full_service_name ssh_target :: run_stdout r)
                  (run_stderr r) (run_end r)
        | o => stopped o
        end
  | Returns (_, None, _) => mkRun [] [ServiceNameRequired] (Exited 2)
  | o => stopped o
  end.

End Cli.

(** What [docker service ls --format '{{.Name}}'] writes for the services
    [names]: one name a line.  A service name is not empty and holds no
    white space. *)
Definition service_listing (names : list string) : string :=
  fold_right (fun name rest => name ++ String LF rest) "" names.

Definition plain_name (name : string) : bool :=
  truthy name && forallb (fun c => negb (Cli.is_space c)) (Re.chars name).

(** The names, a newline between them. *)
Definition joined (names : list string) : list ascii :=
  Re.chars (String.concat (String LF "") names).

(** A remote host for the worked examples: two services, a log of three
    lines, no configuration file. *)
Definition example_world : Cli.world :=
  Cli.mkWorld Cli.NoConfigFile
    (fun _ => Cli.Output (service_listing ["api"; "web"]))
    (fun _ => Cli.Process example_entry "" 0).

(** ** The line classifier on any text

    The lines are [str]: sequences of Unicode code points, and the pattern
    of line 96 is a [str] pattern compiled without [re.ASCII], so that its
    [\d] matches every code point that [str.isdecimal] accepts (general
    category Nd), not only [0-9].  Here a line is the list of its code
    points, and the class of [\d] a parameter [digit]. *)
Module Uni.

Definition text : Type := list N.

Definition code_points (s : string) : text := map N_of_ascii (Re.chars s).

(** The items of [^\d{4}-\d{2}-\d{2}]: [\d], or a literal character. *)
Inductive item : Type :=
| Digit
| Char (c : N).

Definition HYPHEN : N := 45.

(** [^\d{4}-\d{2}-\d{2}], the counted repetitions written out. *)
Definition date_pattern : list item :=
  [Digit; Digit; Digit; Digit; Char HYPHEN;
   Digit; Digit; Char HYPHEN; Digit; Digit].

(** [pattern.match]: the items one after the other from offset 0. *)
Fixpoint match_at (digit : N -> bool) (items : list item) (s : text) : bool :=
  match items with
  | [] => true
  | i :: items' =>
      match s with
      | [] => false
      | x :: s' =>
          (match i with
           | Digit => digit x
           | Char c => N.eqb x c
           end) && match_at digit items' s'
      end
  end.

(** [bool(date_pattern.match(line))] *)
Definition is_new_log_entry (digit : N -> bool) (line : text) : bool :=
  match_at digit date_pattern line.

(** The digits [0-9] only. *)
Definition ascii_digit (x : N) : bool := (48 <=? x)%N && (x <=? 57)%N.

(** The code points of category Nd in Unicode 14.0 (the tables of
    CPython 3.11) come in runs of ten, [0] to [9]; these are the zeros. *)
Definition decimal_zeros : list N :=
  [48; 1632; 1776; 1984; 2406; 2534; 2662; 2790; 2918; 3046; 3174; 3302;
   3430; 3558; 3664; 3792; 3872; 4160; 4240; 6112; 6160; 6470; 6608; 6784;
   6800; 6992; 7088; 7232; 7248; 42528; 43216; 43264; 43472; 43504; 43600;
   44016; 65296; 66720; 68912; 69734; 69872; 69942; 70096; 70384; 70736;
   70864; 71248; 71360; 71472; 71904; 72016; 72784; 73040; 73120; 92768;
   92864; 93008; 120782; 120792; 120802; 120812; 120822; 123200; 123632;
   125264; 130032]%N.

(** [str.isdecimal] on one code point, with those tables. *)
Definition isdecimal (x : N) : bool :=
  existsb (fun zero => (zero <=? x)%N && (x <? zero + 10)%N) decimal_zeros.

(** The specification's words, with the digits a parameter: the first ten
    characters are four digits, a hyphen, two digits, a hyphen and two
    digits. *)
Definition date_prefix (digit : N -> bool) (line : text) : Prop :=
  exists d1 d2 d3 d4 d5 d6 d7 d8 rest,
    line = ([d1; d2; d3; d4; HYPHEN; d5; d6; HYPHEN; d7; d8] ++ rest)%list /\
    Forall (fun d => digit d = true) [d1; d2; d3; d4; d5; d6; d7; d8].

(** A date in Arabic-Indic digits: U+0662 U+0660 U+0662 U+0664, a hyphen,
    U+0660 U+0661, a hyphen, U+0660 U+0661. *)
Definition arabic_indic_date : text :=
  [1634; 1632; 1634; 1636; 45; 1632; 1633; 45; 1632; 1633]%N.

End Uni.


(** * Properties *)

(** ** Strings and character lists *)

Lemma chars_text (l : list ascii) : Re.chars (Re.text l) = l.
Proof. apply list_ascii_of_string_of_list_ascii. Qed.

Lemma text_chars (s : string) : Re.text (Re.chars s) = s.
Proof. apply string_of_list_ascii_of_string. Qed.

Lemma chars_app (a b : string) :
  Re.chars (a ++ b) = (Re.chars a ++ Re.chars b)%list.
Proof.
  induction a as [|c a IH]; simpl; [reflexivity|].
  unfold Re.chars in *. simpl. now rewrite IH.
Qed.


Lemma truthy_chars (s : string) : truthy s = false <-> Re.chars s = [].
Proof. destruct s; simpl; split; intros; congruence. Qed.

(** ** The parser on an escaped keyword *)

Module ReFacts.
Import Re.
Local Open Scope char_scope.
Local Open Scope list_scope.

Lemma kind_of_plain (c : ascii) : is_special c = false -> kind_of c = KLiteral.
Proof.
  destruct c as [[] [] [] [] [] [] [] []]; vm_compute; congruence.
Qed.

Lemma escaped_is_literal (c : ascii) :
  is_special c = true ->
  Ascii.eqb c "d" = false /\ is_ascii_letter c || is_digit c = false.
Proof.
  destruct c as [[] [] [] [] [] [] [] []]; vm_compute; intuition congruence.
Qed.

Lemma parse_loop_escape (K : list ascii) :
  forall rest cur stack n,
    parse_loop (escape_chars K ++ rest) 0 cur stack n =
    parse_loop rest 0
      (mkFrame (f_group cur) (f_alts cur) (rev (map lit K) ++ f_items cur))
      stack n.
Proof.
  induction K as [|c K IH]; intros rest cur stack n.
  - destruct cur; reflexivity.
  - simpl escape_chars. destruct (is_special c) eqn:Hc.
    + destruct (escaped_is_literal c Hc) as [Hd Hal].
      change (("\" :: c :: escape_chars K) ++ rest)%list
        with ("\" :: c :: (escape_chars K ++ rest))%list.
      cbn [parse_loop]. change (kind_of "\") with KBackslash. cbv iota.
      rewrite Hd, Hal. rewrite IH. cbn [push f_group f_alts f_items map rev].
      now rewrite <- app_assoc.
    + change ((c :: escape_chars K) ++ rest)%list
        with (c :: (escape_chars K ++ rest))%list.
      cbn [parse_loop]. rewrite (kind_of_plain c Hc). cbv iota.
      rewrite IH. cbn [push f_group f_alts f_items map rev].
      now rewrite <- app_assoc.
Qed.

Lemma parse_keyword_group (K : list ascii) :
  parse ("(" :: escape_chars K ++ [")"]) = Ok (keyword_regex K, 1).
Proof.
  unfold parse. cbn [parse_loop]. change (kind_of "(") with KOpen. cbv iota.
  assert (Hq : forall x l, (escape_chars K ++ [")"])%list = x :: l ->
                           Ascii.eqb x "?" = false).
  { intros x l. destruct K as [|c K]; simpl.
    - intros [= <- _]. reflexivity.
    - destruct (is_special c) eqn:Hc; intros [= <- _]; [reflexivity|].
      destruct (Ascii.eqb c "?") eqn:E; [|reflexivity].
      apply Ascii.eqb_eq in E. subst c. discriminate Hc. }
  destruct (escape_chars K ++ [")"])%list as [|x l] eqn:E.
  - destruct K as [|c K]; simpl in E; [discriminate|].
    destruct (is_special c); discriminate.
  - specialize (Hq x l eq_refl).
    assert (Hgo : parse_loop (x :: l) 0 (mkFrame 1 [] []) [mkFrame 0 [] []] 1
                  = Ok (keyword_regex K, 1)).
    { rewrite <- E. rewrite parse_loop_escape. cbn [parse_loop].
      change (kind_of ")") with KClose. cbv iota.
      cbn [f_group f_alts f_items push close rev app].
      rewrite app_nil_r, rev_involutive. reflexivity. }
    destruct x as [[] [] [] [] [] [] [] []]; try exact Hgo; discriminate Hq.
Qed.

End ReFacts.

(** ** The matcher on a keyword *)

Module MatchFacts.
Import Re Spec.
Local Open Scope char_scope.
Local Open Scope list_scope.

Section Literal.
Variable ic : bool.
Variable total : nat.





End Literal.




End MatchFacts.

(** ** The highlighter *)

Lemma escape_pattern_chars (keyword : string) :
  Re.chars ("(" ++ Re.escape keyword ++ ")") =
  ("("%char :: Re.escape_chars (Re.chars keyword) ++ [")"%char])%list.
Proof.
  rewrite chars_app. change (Re.chars "(") with ["("%char]. simpl.
  rewrite chars_app. unfold Re.escape. now rewrite chars_text.
Qed.

Lemma template_parses :
  Re.parse_template (Re.chars (COLOR_YELLOW ++ "\1" ++ COLOR_RESET)) 0 1
  = Re.Ok highlight_template.
Proof. reflexivity. Qed.

(** Every [re.sub] call of the program returns: no keyword makes the
    escaped pattern or the template fail. *)
Lemma highlight_returns (keyword : string) (ic : bool) (line : string) :
  highlight keyword ic line = Re.Ok (highlighted keyword ic line).
Proof.
  unfold highlight, Re.sub, Re.compile.
  rewrite escape_pattern_chars, ReFacts.parse_keyword_group.
  cbn [Re.fmap Re.bind Re.p_groups Re.p_regex].
  rewrite template_parses. reflexivity.
Qed.


(** ** Stripping the markers *)

Module StripFacts.
Import Spec.
Local Open Scope char_scope.
Local Open Scope list_scope.











End StripFacts.

(** ** Claims on the highlighter *)




(** ** Claims on the line classifier *)

Lemma rep_max_spent {R} ic a (s : list ascii) (k : list ascii -> option R) :
  Re.rep_max ic a (Some 0) s k = k s.
Proof.
  destruct s; simpl; [reflexivity|]. now rewrite andb_false_r.
Qed.

Ltac crunch_tests :=
  repeat (cbn -[Ascii.eqb is_digit LF];
          repeat rewrite rep_max_spent;
          try reflexivity;
          match goal with
          | |- context [is_digit ?d] => destruct (is_digit d)
          | |- context [Ascii.eqb ?d ?h] => destruct (Ascii.eqb d h)
          end).

Lemma date_pattern_match (s : list ascii) :
  Re.is_some (Re.attempt false (length s) (Re.p_regex date_pattern) s false)
  = date_prefixb s.
Proof.
  unfold Re.attempt, date_pattern, Re.p_regex. cbn [Re.run].
  rewrite Nat.eqb_refl. cbn [Nat.sub option_map].
  generalize (length s) as total. intros total.
  destruct s
    as [|d1 [|d2 [|d3 [|d4 [|h1 [|d5 [|d6 [|h2 [|d7 [|d8 rest]]]]]]]]]];
    crunch_tests.
Qed.

Lemma is_digit_decimal (c : ascii) : is_digit c = true <-> Spec.decimal c.
Proof.
  unfold Spec.decimal. split.
  - destruct c as [[] [] [] [] [] [] [] []]; vm_compute; intros H;
      first [discriminate H | repeat first [left; reflexivity | right]].
  - simpl. intros H.
    repeat (destruct H as [H|H]; [subst c; reflexivity|]). contradiction.
Qed.

Lemma date_prefixb_spec (line : string) :
  date_prefixb (Re.chars line) = true <-> Spec.date_prefix line.
Proof.
  unfold Spec.date_prefix. split.
  - intros H. unfold date_prefixb in H.
    destruct (Re.chars line)
      as [|d1 [|d2 [|d3 [|d4 [|h1 [|d5 [|d6 [|h2 [|d7 [|d8 rest]]]]]]]]]];
      try discriminate H.
    do 9 (apply andb_prop in H; destruct H as [H ?]).
    repeat match goal with
           | E : Ascii.eqb _ _ = true |- _ => apply Ascii.eqb_eq in E; subst
           | E : is_digit _ = true |- _ => apply is_digit_decimal in E
           end.
    exists d1, d2, d3, d4, d5, d6, d7, d8, rest.
    split; [reflexivity|].
    repeat (apply Forall_cons; [assumption|]). apply Forall_nil.
  - intros (d1 & d2 & d3 & d4 & d5 & d6 & d7 & d8 & rest & -> & HF).
    repeat match goal with
           | E : Forall _ (_ :: _) |- _ => inversion E; subst; clear E
           end.
    repeat match goal with
           | E : Spec.decimal _ |- _ => apply is_digit_decimal in E
           end.
    cbn [app date_prefixb].
    repeat match goal with
           | E : is_digit _ = true |- _ => rewrite E; clear E
           end.
    reflexivity.
Qed.

(** On text within U+0000..U+00FF: a header is a line whose first ten
    characters are four of the digits 0-9, a hyphen, two digits, a hyphen
    and two digits. *)
Lemma latin1_header_iff_date_prefix :
  (forall line : string,
      is_new_log_entry line = true <-> Spec.date_prefix line) /\
  is_new_log_entry "9999-99-99" = true.
Proof.
  split; [|reflexivity].
  intros line. unfold is_new_log_entry, Re.p_match.
  change (Re.p_ignore_case date_pattern) with false.
  rewrite date_pattern_match. apply date_prefixb_spec.
Qed.

(** ** The loop *)

Lemma header_truthy (line : string) :
  is_new_log_entry line = true -> truthy line = true.
Proof. destruct line; [discriminate | reflexivity]. Qed.

Lemma iteration_compiled kw ic p (v : vars) (line : string) :
  truthy kw = true ->
  Re.compile kw ic = Re.Ok p ->
  iteration (Some kw) ic v line =
  (fst (turn (Re.p_search p) (highlighted kw ic) v line),
   Re.Ok (snd (turn (Re.p_search p) (highlighted kw ic) v line))).
Proof.
  intros Hk Hc. unfold iteration, turn, end_flush, buffered, print_highlighted,
    line_matches, Re.search.
  rewrite Hk, Hc. destruct v as [prev pm].
  cbn [negb Re.fmap Re.bind previous_line previous_line_matches].
  destruct (is_new_log_entry line); destruct prev as [|c prev];
    destruct pm; destruct (Re.p_search p line);
    cbn [truthy andb orb mbind call ret print previous_line
         previous_line_matches fst snd app map];
    rewrite ?highlight_returns;
    cbn [truthy andb orb mbind call ret print previous_line
         previous_line_matches fst snd app map];
    rewrite ?highlight_returns;
    reflexivity.
Qed.

Lemma loop_compiled kw ic p (lines : list string) :
  truthy kw = true ->
  Re.compile kw ic = Re.Ok p ->
  forall v,
    loop (Some kw) ic v lines =
    (fst (turns (Re.p_search p) (highlighted kw ic) v lines),
     Re.Ok (snd (turns (Re.p_search p) (highlighted kw ic) v lines))).
Proof.
  intros Hk Hc. induction lines as [|line rest IH]; intros v; [reflexivity|].
  cbn [loop turns]. rewrite (iteration_compiled kw ic p v line Hk Hc).
  destruct (turn (Re.p_search p) (highlighted kw ic) v line) as [o v1].
  cbn [mbind fst snd]. rewrite IH.
  destruct (turns (Re.p_search p) (highlighted kw ic) v1 rest) as [o' v2].
  reflexivity.
Qed.

Lemma stream_logs_compiled kw ic p (lines : list string) :
  truthy kw = true ->
  Re.compile kw ic = Re.Ok p ->
  stream_logs (Some kw) ic lines =
  (out_of (Re.p_search p) (highlighted kw ic) lines, Re.Ok tt).
Proof.
  intros Hk Hc. unfold stream_logs, out_of.
  rewrite (loop_compiled kw ic p lines Hk Hc).
  destruct (turns (Re.p_search p) (highlighted kw ic) initial lines)
    as [o [prev pm]].
  cbn [mbind fst snd]. unfold last_line, end_flush, print_highlighted.
  cbn [previous_line previous_line_matches].
  destruct (truthy prev && pm); cbn [mbind call ret print];
    rewrite ?highlight_returns; reflexivity.
Qed.

(** A keyword that does not compile ends the run at the first line, with
    nothing printed. *)
Lemma stream_logs_not_compiled kw ic (lines : list string) :
  truthy kw = true ->
  (forall p, Re.compile kw ic <> Re.Ok p) ->
  stdout (stream_logs (Some kw) ic lines) = [].
Proof.
  intros Hk Hc. destruct lines as [|line rest]; [reflexivity|].
  unfold stream_logs. cbn [loop]. unfold iteration, line_matches, Re.search.
  rewrite Hk. cbn [negb initial previous_line truthy andb].
  rewrite andb_false_r.
  destruct (Re.compile kw ic) as [p| |]; [now destruct (Hc p)| |]; reflexivity.
Qed.

(** ** Selections *)

Module SubseqFacts.
Import Spec.
Local Open Scope list_scope.

Section Subsequence.
Context {A : Type}.
Implicit Types sel l : list A.

Lemma subsequence_nil_l l : subsequence [] l.
Proof. induction l; constructor; assumption. Qed.

Lemma subsequence_refl l : subsequence l l.
Proof. induction l; constructor; assumption. Qed.

Lemma subsequence_app sel1 l1 sel2 l2 :
  subsequence sel1 l1 -> subsequence sel2 l2 ->
  subsequence (sel1 ++ sel2) (l1 ++ l2).
Proof.
  intros H1 H2. induction H1; simpl; try constructor; assumption.
Qed.

Lemma subsequence_insert (x : A) l1 :
  forall sel l2,
    subsequence sel (l1 ++ l2) -> subsequence sel (l1 ++ x :: l2).
Proof.
  induction l1 as [|y l1 IH]; intros sel l2 H; simpl in *.
  - now constructor.
  - inversion H; subst; constructor; now apply IH.
Qed.

Lemma subsequence_app_l l :
  forall sel1 sel2, subsequence (sel1 ++ sel2) l -> subsequence sel1 l.
Proof.
  induction l as [|x l IH]; intros sel1 sel2 H.
  - inversion H as [E| |]. destruct sel1; [constructor | discriminate].
  - inversion H as [|y sel l' H' | y sel l' H' E]; subst.
    + constructor. now apply (IH sel1 sel2).
    + destruct sel1 as [|z sel1]; [apply subsequence_nil_l|].
      simpl in E. injection E as -> ->. apply subsequence_take.
      now apply (IH sel1 sel2).
Qed.
End Subsequence.

End SubseqFacts.

(** ** Runs of the loop *)

Section Runs.
Import Spec SubseqFacts.
Local Open Scope list_scope.
Variable matches : string -> bool.
Variable hl : string -> string.

Local Abbreviation step := (turn matches hl).
Local Abbreviation run := (turns matches hl).
Local Abbreviation flush := (end_flush hl).
Local Abbreviation output := (out_of matches hl).

Lemma turns_app (l1 l2 : list string) :
  forall v,
    run v (l1 ++ l2) =
    let (o1, v1) := run v l1 in
    let (o2, v2) := run v1 l2 in (o1 ++ o2, v2).
Proof.
  induction l1 as [|x l1 IH]; intros v; simpl.
  - now destruct (run v l2).
  - destruct (step v x) as [o v']. rewrite IH.
    destruct (run v' l1) as [o1 v1]. destruct (run v1 l2) as [o2 v2].
    now rewrite app_assoc.
Qed.

Lemma end_flush_buffered (v : vars) :
  exists sel, flush v = map hl sel /\ subsequence sel (buffered v).
Proof.
  unfold end_flush, buffered. destruct (truthy (previous_line v)); simpl.
  - destruct (previous_line_matches v).
    + exists [previous_line v]. split; [reflexivity|apply subsequence_refl].
    + exists []. split; [reflexivity|apply subsequence_nil_l].
  - exists []. split; [reflexivity|constructor].
Qed.

(** What has been printed is a selection of the lines read, and the
    header held back comes after everything printed. *)
Lemma turns_select (lines : list string) :
  forall v,
  exists sel,
    fst (run v lines) = map hl sel /\
    subsequence (sel ++ buffered (snd (run v lines))) (buffered v ++ lines).
Proof.
  induction lines as [|line rest IH]; intros v.
  - exists []. split; [reflexivity|]. simpl. rewrite app_nil_r.
    apply subsequence_refl.
  - cbn [turns]. unfold turn.
    destruct (is_new_log_entry line) eqn:Hnew.
    + destruct (IH (mkVars line (matches line))) as (sel' & Ho & Hs).
      destruct (run (mkVars line (matches line)) rest) as [o' v2].
      destruct (end_flush_buffered v) as (fl & Hfl & Hsub).
      exists (fl ++ sel'). cbn [fst snd] in *. split.
      * now rewrite Hfl, Ho, map_app.
      * rewrite <- app_assoc. apply subsequence_app; [assumption|].
        unfold buffered in Hs at 2. cbn [previous_line] in Hs.
        now rewrite (header_truthy line Hnew) in Hs.
    + destruct (previous_line_matches v || matches line).
      * destruct (IH (mkVars "" true)) as (sel' & Ho & Hs).
        destruct (run (mkVars "" true) rest) as [o' v2].
        exists ((buffered v ++ [line]) ++ sel'). cbn [fst snd] in *. split.
        -- now rewrite Ho, !map_app.
        -- rewrite <- app_assoc.
           replace (buffered v ++ line :: rest)
             with ((buffered v ++ [line]) ++ rest)
             by now rewrite <- app_assoc.
           apply subsequence_app; [apply subsequence_refl | exact Hs].
      * destruct (IH v) as (sel' & Ho & Hs).
        destruct (run v rest) as [o' v2].
        exists sel'. cbn [fst snd] in *. split; [assumption|].
        now apply subsequence_insert.
Qed.

Lemma out_of_select (lines : list string) :
  exists sel, output lines = map hl sel /\ subsequence sel lines.
Proof.
  unfold out_of.
  destruct (turns_select lines initial) as (sel & Ho & Hs).
  destruct (run initial lines) as [o v]. cbn [fst snd] in *.
  destruct (end_flush_buffered v) as (fl & Hfl & Hsub).
  exists (sel ++ fl). split.
  - now rewrite Ho, Hfl, map_app.
  - change (buffered initial ++ lines) with lines in Hs.
    assert (H : subsequence ((sel ++ fl) ++ []) (lines ++ [])).
    { rewrite !app_nil_r.
      destruct fl as [|x fl].
      - rewrite app_nil_r. now apply subsequence_app_l in Hs.
      - unfold buffered in *. destruct (truthy (previous_line v)).
        + inversion Hsub as [|? ? ? H1|? ? ? H1]; subst.
          * inversion H1.
          * inversion H1; subst. exact Hs.
        + inversion Hsub. }
    now rewrite !app_nil_r in H.
Qed.

(** A header closes what came before it: the lines up to it print what
    they would print if the stream ended there. *)
Lemma turn_header (v : vars) (h : string) :
  is_new_log_entry h = true ->
  step v h = (flush v, mkVars h (matches h)).
Proof. intros H. unfold turn. now rewrite H. Qed.

Lemma out_of_header (pre : list string) (h : string) (rest : list string) :
  is_new_log_entry h = true ->
  output (pre ++ h :: rest) = output pre ++ output (h :: rest).
Proof.
  intros Hh. unfold out_of. rewrite turns_app.
  destruct (run initial pre) as [o1 v1].
  cbn [turns]. rewrite !turn_header by assumption.
  destruct (run (mkVars h (matches h)) rest) as [o' v2].
  change (flush initial) with (@nil string).
  now rewrite !app_nil_l, <- !app_assoc.
Qed.

(** Continuation lines after the entry has matched: all printed. *)
Lemma turns_sticky (conts : list string) :
  Forall (fun c => is_new_log_entry c = false) conts ->
  run (mkVars "" true) conts = (map hl conts, mkVars "" true).
Proof.
  induction 1 as [|c conts Hc _ IH]; [reflexivity|].
  cbn [turns]. unfold turn. rewrite Hc.
  cbn [previous_line_matches orb buffered previous_line truthy map app].
  now rewrite IH.
Qed.

(** Continuation lines behind a header that did not match: dropped up to
    the first that matches. *)
Lemma turns_unmatched (h : string) (conts : list string) :
  truthy h = true ->
  Forall (fun c => is_new_log_entry c = false) conts ->
  run (mkVars h false) conts =
  match from_first_match matches conts with
  | [] => ([], mkVars h false)
  | shown => (hl h :: map hl shown, mkVars "" true)
  end.
Proof.
  intros Hh. induction 1 as [|c conts Hc Hcs IH]; [reflexivity|].
  cbn [turns from_first_match]. unfold turn. rewrite Hc.
  cbn [previous_line_matches orb]. destruct (matches c).
  - unfold buffered. cbn [previous_line]. rewrite Hh.
    rewrite (turns_sticky conts Hcs). reflexivity.
  - rewrite IH. now destruct (from_first_match matches conts).
Qed.

Lemma out_of_entry (h : string) (conts : list string) :
  is_new_log_entry h = true ->
  Forall (fun c => is_new_log_entry c = false) conts ->
  output (h :: conts) = entry_output matches hl h conts.
Proof.
  intros Hh Hcs. pose proof (header_truthy h Hh) as Ht.
  unfold out_of, entry_output. cbn [turns].
  rewrite turn_header by assumption.
  change (flush initial) with (@nil string).
  destruct (matches h) eqn:Hm.
  - destruct Hcs as [|c conts Hc Hcs].
    + cbn [turns]. unfold end_flush.
      cbn [previous_line previous_line_matches]. now rewrite Ht.
    + cbn [turns]. unfold turn. rewrite Hc.
      cbn [previous_line_matches orb]. unfold buffered.
      cbn [previous_line]. rewrite Ht.
      rewrite (turns_sticky conts Hcs). cbn [app map].
      unfold end_flush. cbn [previous_line truthy andb].
      now rewrite app_nil_r.
  - rewrite (turns_unmatched h conts Ht Hcs).
    destruct (from_first_match matches conts) as [|c shown].
    + unfold end_flush. cbn [previous_line previous_line_matches].
      now rewrite andb_false_r.
    + cbn [app]. unfold end_flush. cbn [previous_line truthy andb].
      now rewrite app_nil_r.
Qed.

Lemma end_flush_last (lines : list string) :
  forall v,
    flush (snd (run v lines)) =
    match rev lines with
    | [] => flush v
    | h :: _ => if is_new_log_entry h && matches h then [hl h] else []
    end.
Proof.
  induction lines as [|x pre _] using rev_ind; intros v; [reflexivity|].
  rewrite rev_app_distr. cbn [rev app]. rewrite turns_app.
  destruct (run v pre) as [o1 v1]. cbn [turns]. unfold turn.
  destruct (is_new_log_entry x) eqn:Hx.
  - cbn [snd]. unfold end_flush. cbn [previous_line previous_line_matches].
    now rewrite (header_truthy x Hx).
  - destruct (previous_line_matches v1 || matches x) eqn:E; cbn [snd andb].
    + reflexivity.
    + apply orb_false_elim in E. destruct E as [E _].
      unfold end_flush. rewrite E. now rewrite andb_false_r.
Qed.
End Runs.

(** ** Claims on the reassembly loop *)

(** C1 (amended).  On the three lines of the worked example with keyword
    [ERROR], the header and the third line are printed, the third with the
    keyword highlighted, and the run ends normally; the second line, read
    before any line of the entry had matched, is not printed. *)
Theorem example_entry_output :
  stream_logs (Some "ERROR") false example_entry =
  ([example_header; "  at bar(): " ++ COLOR_YELLOW ++ "ERROR" ++ COLOR_RESET],
   Re.Ok tt) /\
  ~ In example_frame1 (stdout (stream_logs (Some "ERROR") false example_entry)).
Proof.
  split; [vm_compute; reflexivity|].
  vm_compute. intros [H|[H|[]]]; discriminate H.
Qed.

(** C1, as stated, fails: two lines are printed, not three, and the first
    continuation line is not among them, highlighted or not. *)
Lemma example_entry_not_whole :
  length (stdout (stream_logs (Some "ERROR") false example_entry)) <> 3 /\
  highlight "ERROR" false example_frame1 = Re.Ok example_frame1 /\
  ~ In example_frame1 (stdout (stream_logs (Some "ERROR") false example_entry)).
Proof.
  split; [vm_compute; discriminate|].
  split; [vm_compute; reflexivity|].
  vm_compute. intros [H|[H|[]]]; discriminate H.
Qed.

Lemma loop_pass_through (keyword : option string) ic (lines : list string) :
  has_keyword keyword = false ->
  forall v, loop keyword ic v lines = (lines, Re.Ok v).
Proof.
  intros Hk. induction lines as [|line rest IH]; intros v; [reflexivity|].
  cbn [loop].
  assert (Hit : iteration keyword ic v line = ([line], Re.Ok v)).
  { unfold iteration. destruct keyword as [kw|]; [|reflexivity].
    simpl in Hk. now rewrite Hk. }
  rewrite Hit. cbn [mbind]. now rewrite IH.
Qed.

(** C7.  With no keyword (absent or empty) the run is not an error: what
    is printed is the input, line for line, in order and with its
    terminators, and the two loop variables are never touched. *)
Theorem pass_through (keyword : option string) (ic : bool)
        (lines : list string) :
  has_keyword keyword = false ->
  stream_logs keyword ic lines = (lines, Re.Ok tt) /\
  loop keyword ic initial lines = (lines, Re.Ok initial).
Proof.
  intros Hk. unfold stream_logs.
  rewrite (loop_pass_through keyword ic lines Hk initial).
  split; [|reflexivity]. cbn. now rewrite app_nil_r.
Qed.

Lemma pass_through_witness :
  has_keyword (Some "") = false /\
  stream_logs (Some "") true example_entry = (example_entry, Re.Ok tt) /\
  loop (Some "") true initial example_entry = (example_entry, Re.Ok initial).
Proof.
  split; [reflexivity|].
  apply (pass_through (Some "") true example_entry). reflexivity.
Defined.

Lemma highlighted_all kw ic (sel : list string) :
  Forall2 (fun line out => highlight kw ic line = Re.Ok out)
          sel (map (highlighted kw ic) sel).
Proof.
  induction sel; constructor; [apply highlight_returns | assumption].
Qed.

(** ** The keyword as [re.search] reads it *)

(** C2: the keyword [a.b] is found in [axb], where it does not occur. *)
Theorem keyword_read_as_pattern :
  line_matches "a.b" false "axb" = Re.Ok true /\
  Spec.occurs false (Re.chars "a.b") (Re.chars "axb") = false.
Proof. split; vm_compute; reflexivity. Qed.

(** C3: the keyword [(] makes the match test raise on the first line, and
    the run ends in the handler with nothing printed; the highlighter on the
    same keyword returns. *)
Theorem unbalanced_keyword_raises :
  line_matches "(" false "2024-01-01 f(x)" = Re.Raised /\
  stream_logs (Some "(") false ["2024-01-01 f(x)"] = ([], Re.Raised) /\
  highlight "(" false "2024-01-01 f(x)"
    = Re.Ok ("2024-01-01 f" ++ COLOR_YELLOW ++ "(" ++ COLOR_RESET ++ "x)").
Proof. repeat split; vm_compute; reflexivity. Qed.

(** C5: the line [axb] matches the keyword [a.b], and the highlighter
    returns it without a span. *)
Theorem matched_line_without_span :
  line_matches "a.b" false "axb" = Re.Ok true /\
  highlight "a.b" false "axb" = Re.Ok "axb".
Proof. split; vm_compute; reflexivity. Qed.

(** * Further properties of the program *)

(** ** The match test *)

Module SearchFacts.
Import Re Spec.
Local Open Scope char_scope.
Local Open Scope list_scope.




(** *** Letter case: what matches as written matches with [re.IGNORECASE] *)

Lemma atom_ok_mono (a : atom) (x : ascii) :
  atom_ok false a x = true -> atom_ok true a x = true.
Proof.
  destruct a; simpl; try easy.
  unfold char_eqb. intros H. apply Ascii.eqb_eq in H. subst x.
  apply Ascii.eqb_refl.
Qed.

Lemma rep_min_mono {R R'} (a : atom) (n : nat) :
  forall s (k : list ascii -> option R) (k' : list ascii -> option R'),
    (forall s1, is_some (k s1) = true -> is_some (k' s1) = true) ->
    is_some (rep_min false a n s k) = true ->
    is_some (rep_min true a n s k') = true.
Proof.
  induction n as [|n IH]; intros s k k' Hk; simpl; [apply Hk|].
  destruct s as [|x s]; [easy|].
  destruct (atom_ok false a x) eqn:E; [|easy].
  rewrite (atom_ok_mono a x E). now apply IH.
Qed.

Lemma rep_max_mono {R R'} (a : atom) :
  forall s budget (k : list ascii -> option R) (k' : list ascii -> option R'),
    (forall s1, is_some (k s1) = true -> is_some (k' s1) = true) ->
    is_some (rep_max false a budget s k) = true ->
    is_some (rep_max true a budget s k') = true.
Proof.
  induction s as [|x s IH]; intros budget k k' Hk; simpl; [apply Hk|].
  destruct (atom_ok false a x) eqn:E.
  - rewrite (atom_ok_mono a x E). simpl andb.
    destruct (has_budget budget); [|apply Hk].
    specialize (IH (spend budget) k k' Hk).
    destruct (rep_max false a (spend budget) s k) as [r|].
    + intros _. specialize (IH eq_refl).
      now destruct (rep_max true a (spend budget) s k').
    + intros H. destruct (rep_max true a (spend budget) s k'); [reflexivity|].
      now apply Hk.
  - simpl andb. intros H.
    destruct (atom_ok true a x && has_budget budget); [|now apply Hk].
    destruct (rep_max true a (spend budget) s k'); [reflexivity|].
    now apply Hk.
Qed.

Lemma run_mono {R R'} (total : nat) (r : regex) :
  forall s caps caps'
         (k : list ascii -> captures -> option R)
         (k' : list ascii -> captures -> option R'),
    (forall s1 c1 c1', is_some (k s1 c1) = true -> is_some (k' s1 c1') = true) ->
    is_some (run false total r s caps k) = true ->
    is_some (run true total r s caps' k') = true.
Proof.
  induction r as [|a|lo hi a| | |n r IH|r1 IH1 r2 IH2|r1 IH1 r2 IH2];
    intros s caps caps' k k' Hk; cbn [run].
  - apply Hk.
  - destruct s as [|x s]; [easy|].
    destruct (atom_ok false a x) eqn:E; [|easy].
    rewrite (atom_ok_mono a x E). apply Hk.
  - apply rep_min_mono. intros s1. apply rep_max_mono. intros s2. apply Hk.
  - destruct (length s =? total)%nat; [apply Hk | easy].
  - destruct s as [|x [|y s]]; [apply Hk | | easy].
    destruct (Ascii.eqb x LF); [apply Hk | easy].
  - apply IH. intros s1 c1 c1'. apply Hk.
  - apply IH1. intros s1 c1 c1'. apply IH2. exact Hk.
  - intros H.
    destruct (run false total r1 s caps k) as [x|] eqn:E1.
    + assert (H1 : is_some (run true total r1 s caps' k') = true)
        by (apply (IH1 s caps caps' k k' Hk); now rewrite E1).
      now destruct (run true total r1 s caps' k').
    + destruct (run true total r1 s caps' k'); [reflexivity|].
      now apply (IH2 s caps caps' k k' Hk).
Qed.

Lemma attempt_mono total r s :
  is_some (attempt false total r s false) = true ->
  is_some (attempt true total r s false) = true.
Proof. unfold attempt. apply run_mono. intros s1 c1 c1' _. reflexivity. Qed.

Lemma scan_mono total r :
  forall s, is_some (scan false total r s) = true ->
            is_some (scan true total r s) = true.
Proof.
  induction s as [|x s IH]; cbn [scan].
  - intros H. pose proof (attempt_mono total r []) as Ha.
    destruct (attempt false total r [] false); [|discriminate H].
    specialize (Ha eq_refl). now destruct (attempt true total r [] false).
  - intros H. pose proof (attempt_mono total r (x :: s)) as Ha.
    destruct (attempt false total r (x :: s) false).
    + specialize (Ha eq_refl).
      now destruct (attempt true total r (x :: s) false).
    + destruct (attempt true total r (x :: s) false); [reflexivity|].
      now apply IH.
Qed.

End SearchFacts.

(** The flag does not change how the keyword parses. *)
Lemma compile_flag (kw : string) (ic : bool) :
  Re.compile kw ic =
  Re.fmap (fun p => Re.mkPattern (Re.p_regex p) (Re.p_groups p) ic)
          (Re.compile kw false).
Proof.
  unfold Re.compile. destruct (Re.parse (Re.chars kw)) as [[r n]| |]; reflexivity.
Qed.



(** X2.  For a keyword written with literal characters, [.], [^], [$],
    [\d], backslash-escaped punctuation, capturing groups, [|] and greedy
    quantifiers on single characters only (the patterns that [Re.parse]
    reads: no character set, no other escape, no [(?...)]), a line that the
    match test accepts as written is accepted with [ignore_case] as well.
    With a character set the flag can lose a match ([[^a]x] matches [Ax]
    only without it); such keywords are outside this statement. *)
Theorem ignore_case_keeps_matches (kw line : string) :
  line_matches kw false line = Re.Ok true ->
  line_matches kw true line = Re.Ok true.
Proof.
  unfold line_matches, Re.search, Re.compile.
  destruct (Re.parse (Re.chars kw)) as [[r n]| |]; cbn [Re.fmap Re.bind];
    try discriminate.
  unfold Re.p_search. cbn [Re.p_ignore_case Re.p_regex].
  intros [= H]. f_equal. now apply SearchFacts.scan_mono.
Qed.


Lemma ignore_case_keeps_matches_witness :
  line_matches "a.b" false "2024-01-01 axb" = Re.Ok true /\
  line_matches "a.b" true "2024-01-01 axb" = Re.Ok true.
Proof.
  split; [reflexivity|].
  apply (ignore_case_keeps_matches "a.b" "2024-01-01 axb"). reflexivity.
Defined.

(** ** The highlighter and the keyword's occurrences *)

Module HighlightFacts.
Import Spec.
Local Open Scope char_scope.
Local Open Scope list_scope.



End HighlightFacts.

Lemma truthy_nonempty (s : string) : truthy s = true -> Re.chars s <> [].
Proof. destruct s; [discriminate | intros _; discriminate]. Qed.



(** ** More on runs of the loop *)

Section MoreRuns.
Import Spec SubseqFacts.
Local Open Scope list_scope.
Variable matches : string -> bool.
Variable hl : string -> string.

(** Nothing matches: nothing is printed, whatever was held back stays
    unmatched. *)
Lemma turns_silent (lines : list string) :
  Forall (fun l => matches l = false) lines ->
  forall v, previous_line_matches v = false ->
    fst (turns matches hl v lines) = [] /\
    previous_line_matches (snd (turns matches hl v lines)) = false.
Proof.
  induction 1 as [|l lines Hl _ IH]; intros v Hv; [now split|].
  cbn [turns]. unfold turn, end_flush. rewrite Hv, Hl, andb_false_r.
  cbn [orb].
  destruct (is_new_log_entry l).
  - destruct (IH (mkVars l false) eq_refl) as [Ho Hp].
    destruct (turns matches hl (mkVars l false) lines) as [o w].
    cbn [fst snd] in *. now subst o.
  - destruct (IH v Hv) as [Ho Hp].
    destruct (turns matches hl v lines) as [o w].
    cbn [fst snd] in *. now subst o.
Qed.

(** Once the flag is set, and as long as every header matches, every line
    is printed. *)
Lemma turns_all (lines : list string) :
  Forall (fun l => is_new_log_entry l = true -> matches l = true) lines ->
  forall v, previous_line_matches v = true ->
    (let (o, w) := turns matches hl v lines in o ++ end_flush hl w)
    = map hl (buffered v ++ lines).
Proof.
  induction 1 as [|l lines Hl _ IH]; intros v Hv.
  - cbn [turns]. unfold end_flush, buffered. rewrite Hv, andb_true_r.
    rewrite app_nil_r. now destruct (truthy (previous_line v)).
  - cbn [turns]. unfold turn. rewrite Hv. cbn [orb].
    destruct (is_new_log_entry l) eqn:Hnew.
    + rewrite (Hl eq_refl). specialize (IH (mkVars l true) eq_refl).
      destruct (turns matches hl (mkVars l true) lines) as [o w].
      rewrite <- app_assoc, IH. unfold end_flush, buffered.
      cbn [previous_line]. rewrite Hv, andb_true_r, (header_truthy l Hnew).
      rewrite !map_app. now destruct (truthy (previous_line v)).
    + specialize (IH (mkVars "" true) eq_refl).
      destruct (turns matches hl (mkVars "" true) lines) as [o w].
      rewrite <- app_assoc, IH. cbn [buffered previous_line truthy app].
      rewrite !map_app. cbn [map app]. now rewrite <- app_assoc.
Qed.

(** Lines before the first header: dropped up to the first that matches. *)
Lemma turns_headless (conts : list string) :
  Forall (fun c => is_new_log_entry c = false) conts ->
  turns matches hl initial conts =
  match from_first_match matches conts with
  | [] => ([], initial)
  | shown => (map hl shown, mkVars "" true)
  end.
Proof.
  induction 1 as [|c conts Hc Hcs IH]; [reflexivity|].
  cbn [turns from_first_match]. unfold turn. rewrite Hc.
  cbn [initial previous_line_matches orb]. destruct (matches c).
  - cbn [buffered previous_line truthy map app].
    now rewrite (turns_sticky matches hl conts Hcs).
  - fold initial. rewrite IH. now destruct (from_first_match matches conts).
Qed.

(** The printed lines are the selection, highlighted. *)
Lemma turns_map (lines : list string) :
  forall v,
    turns matches hl v lines =
    (map hl (fst (turns matches (fun l => l) v lines)),
     snd (turns matches (fun l => l) v lines)).
Proof.
  induction lines as [|l lines IH]; intros v; [reflexivity|].
  cbn [turns].
  assert (Ht : turn matches hl v l =
               (map hl (fst (turn matches (fun l => l) v l)),
                snd (turn matches (fun l => l) v l))).
  { unfold turn, end_flush, buffered.
    destruct (is_new_log_entry l);
      [|destruct (previous_line_matches v || matches l)];
      destruct (truthy (previous_line v)); destruct (previous_line_matches v);
      cbn [fst snd map app andb]; rewrite ?map_id; reflexivity. }
  rewrite Ht.
  destruct (turn matches (fun l => l) v l) as [o v1]. cbn [fst snd].
  rewrite (IH v1).
  destruct (turns matches (fun l => l) v1 lines) as [o' v2]. cbn [fst snd].
  now rewrite map_app.
Qed.

Lemma out_of_map (lines : list string) :
  out_of matches hl lines = map hl (out_of matches (fun l => l) lines).
Proof.
  unfold out_of. rewrite turns_map.
  destruct (turns matches (fun l => l) initial lines) as [o w]. cbn [fst snd].
  rewrite map_app. f_equal. unfold end_flush.
  now destruct (truthy (previous_line w) && previous_line_matches w).
Qed.
End MoreRuns.

Section Monotone.
Import Spec SubseqFacts.
Local Open Scope list_scope.
Variables m m' : string -> bool.

Local Abbreviation same := (fun l : string => l).

Lemma debt_buffered (v v' : vars) :
  ahead v v' -> debt v v' ++ buffered v' = buffered v.
Proof.
  unfold debt, buffered. intros [<-|(_ & _ & [E|E])].
  - now destruct (truthy (previous_line v)).
  - rewrite E. now destruct (truthy (previous_line v)).
  - rewrite E. cbn [truthy]. now rewrite app_nil_r.
Qed.

Lemma flush_ahead (v v' : vars) :
  ahead v v' ->
  subsequence (end_flush same v) (debt v v' ++ end_flush same v').
Proof.
  intros [<-|(Hv & _ & _)].
  - unfold debt, end_flush, buffered.
    destruct (truthy (previous_line v)); cbn [andb app];
      apply subsequence_refl.
  - unfold end_flush at 1. rewrite Hv, andb_false_r. apply subsequence_nil_l.
Qed.

Lemma debt_same (v : vars) : debt v v = [].
Proof. unfold debt, buffered. now destruct (truthy (previous_line v)). Qed.

Lemma debt_flushed (v : vars) (b : bool) : debt v (mkVars "" b) = buffered v.
Proof. reflexivity. Qed.

(** What the first run still prints is a selection of what the second
    still prints, the header it owes put in front. *)
Lemma turns_ahead (lines : list string) :
  Forall (fun l => m l = true -> m' l = true) lines ->
  forall v v',
    ahead v v' ->
    subsequence
      (let (o, w) := turns m same v lines in o ++ end_flush same w)
      (debt v v' ++
       let (o, w) := turns m' same v' lines in o ++ end_flush same w).
Proof.
  induction 1 as [|l lines m_le _ IH]; intros v v' Hvv.
  - cbn [turns app]. now apply flush_ahead.
  - cbn [turns]. unfold turn.
    destruct (is_new_log_entry l) eqn:Hnew.
    + assert (Ha : ahead (mkVars l (m l)) (mkVars l (m' l))).
      { destruct (m l) eqn:E; [left; now rewrite (m_le eq_refl)|].
        destruct (m' l); [right; cbn; auto | now left]. }
      specialize (IH _ _ Ha). unfold debt in IH at 1.
      cbn [previous_line] in IH. rewrite (header_truthy l Hnew) in IH.
      cbn [app] in IH.
      destruct (turns m same (mkVars l (m l)) lines) as [o w].
      destruct (turns m' same (mkVars l (m' l)) lines) as [o' w'].
      rewrite <- !app_assoc.
      rewrite (app_assoc (debt v v') (end_flush same v')).
      apply subsequence_app; [now apply flush_ahead | exact IH].
    + pose proof (debt_buffered v v' Hvv) as Hdb.
      assert (Hboth :
        forall o w o' w',
          subsequence (o ++ end_flush same w) (o' ++ end_flush same w') ->
          subsequence
            (((map same (buffered v) ++ [l]) ++ o) ++ end_flush same w)
            (debt v v' ++
             ((map same (buffered v') ++ [l]) ++ o') ++ end_flush same w')).
      { intros o w o' w' H. rewrite !map_id, <- !app_assoc.
        rewrite (app_assoc (debt v v') (buffered v')), Hdb.
        apply subsequence_app; [apply subsequence_refl|].
        apply (subsequence_app [l] [l]); [apply subsequence_refl | exact H]. }
      assert (Hlate :
        forall o w o' w',
          subsequence (o ++ end_flush same w)
                      (buffered v ++ o' ++ end_flush same w') ->
          subsequence
            (o ++ end_flush same w)
            (debt v v' ++
             ((map same (buffered v') ++ [l]) ++ o') ++ end_flush same w')).
      { intros o w o' w' H. rewrite !map_id, <- !app_assoc.
        rewrite (app_assoc (debt v v') (buffered v')), Hdb.
        cbn [app]. now apply subsequence_insert. }
      destruct (previous_line_matches v || m l) eqn:Eemit.
      * (* the first run prints the line: so does the second *)
        assert (Eemit' : previous_line_matches v' || m' l = true).
        { destruct Hvv as [<-|(_ & -> & _)]; [|reflexivity].
          apply orb_prop in Eemit. destruct Eemit as [->|E]; [reflexivity|].
          rewrite (m_le E). apply orb_true_r. }
        rewrite Eemit'.
        specialize (IH (mkVars "" true) (mkVars "" true) (or_introl eq_refl)).
        rewrite debt_same in IH. cbn [app] in IH.
        destruct (turns m same (mkVars "" true) lines) as [o w].
        destruct (turns m' same (mkVars "" true) lines) as [o' w'].
        now apply Hboth.
      * apply orb_false_elim in Eemit. destruct Eemit as [Hpm Hml].
        destruct (previous_line_matches v' || m' l) eqn:Eemit'.
        -- (* only the second run prints the line *)
           assert (Ha : ahead v (mkVars "" true)) by (right; cbn; auto).
           specialize (IH v (mkVars "" true) Ha). rewrite debt_flushed in IH.
           destruct (turns m same v lines) as [o w].
           destruct (turns m' same (mkVars "" true) lines) as [o' w'].
           cbn [app]. now apply Hlate.
        -- (* neither prints it *)
           apply orb_false_elim in Eemit'. destruct Eemit' as [Hpm' _].
           destruct Hvv as [<-|(_ & E & _)]; [|congruence].
           specialize (IH v v (or_introl eq_refl)).
           destruct (turns m same v lines) as [o w].
           destruct (turns m' same v lines) as [o' w'].
           cbn [app]. exact IH.
Qed.

Lemma out_of_monotone (lines : list string) :
  Forall (fun l => m l = true -> m' l = true) lines ->
  subsequence (out_of m same lines) (out_of m' same lines).
Proof.
  intros Hle. exact (turns_ahead lines Hle initial initial (or_introl eq_refl)).
Qed.
End Monotone.

Lemma line_matches_compiled kw ic p (line : string) :
  Re.compile kw ic = Re.Ok p ->
  line_matches kw ic line = Re.Ok (Re.p_search p line).
Proof. intros Hc. unfold line_matches, Re.search. now rewrite Hc. Qed.

Lemma line_matches_compiles kw ic (line : string) (b : bool) :
  line_matches kw ic line = Re.Ok b ->
  exists p, Re.compile kw ic = Re.Ok p /\ Re.p_search p line = b.
Proof.
  unfold line_matches, Re.search.
  destruct (Re.compile kw ic) as [p| |]; cbn; try discriminate.
  intros [= H]. now exists p.
Qed.

(** X4.  When the match test rejects every line read, nothing is printed
    and the run ends normally: an entry no line of which matches is dropped
    whole. *)
Theorem nothing_matches_nothing_printed (kw : string) (ic : bool)
        (lines : list string) :
  truthy kw = true ->
  Forall (fun l => line_matches kw ic l = Re.Ok false) lines ->
  stream_logs (Some kw) ic lines = ([], Re.Ok tt).
Proof.
  intros Hk Hall. destruct lines as [|l0 rest]; [reflexivity|].
  assert (H0 : line_matches kw ic l0 = Re.Ok false) by now inversion Hall.
  destruct (line_matches_compiles _ _ _ _ H0) as (p & Hc & _).
  rewrite (stream_logs_compiled kw ic p _ Hk Hc). f_equal.
  assert (Hall' : Forall (fun l => Re.p_search p l = false) (l0 :: rest)).
  { revert Hall. apply Forall_impl. intros l Hl.
    rewrite (line_matches_compiled kw ic p l Hc) in Hl. congruence. }
  unfold out_of.
  destruct (turns_silent (Re.p_search p) (highlighted kw ic) _ Hall'
                         initial eq_refl) as [Ho Hp].
  destruct (turns (Re.p_search p) (highlighted kw ic) initial (l0 :: rest))
    as [o w].
  cbn [fst snd] in *. subst o. unfold end_flush.
  now rewrite Hp, andb_false_r.
Qed.

Lemma nothing_matches_nothing_printed_witness :
  truthy "ERROR" = true /\
  Forall (fun l => line_matches "ERROR" false l = Re.Ok false)
         ["2024-01-01 INFO ok"; "  nothing interesting"; "2024-01-02 INFO ok2"] /\
  stream_logs (Some "ERROR") false
    ["2024-01-01 INFO ok"; "  nothing interesting"; "2024-01-02 INFO ok2"]
  = ([], Re.Ok tt).
Proof.
  split; [reflexivity|].
  assert (H : Forall (fun l => line_matches "ERROR" false l = Re.Ok false)
         ["2024-01-01 INFO ok"; "  nothing interesting"; "2024-01-02 INFO ok2"])
    by (repeat (apply Forall_cons; [reflexivity|]); apply Forall_nil).
  split; [exact H|].
  apply (nothing_matches_nothing_printed "ERROR" false _ eq_refl H).
Defined.

(** X5.  When the first line read matches and every later header line
    matches, no line is lost: the run ends normally and prints every line
    read, highlighted, in order. *)
Theorem matching_headers_keep_everything (kw : string) (ic : bool)
        (first : string) (rest : list string) :
  truthy kw = true ->
  line_matches kw ic first = Re.Ok true ->
  Forall (fun l => is_new_log_entry l = true ->
                   line_matches kw ic l = Re.Ok true) rest ->
  exists out,
    stream_logs (Some kw) ic (first :: rest) = (out, Re.Ok tt) /\
    Forall2 (fun line o => highlight kw ic line = Re.Ok o) (first :: rest) out.
Proof.
  intros Hk H0 Hall.
  destruct (line_matches_compiles _ _ _ _ H0) as (p & Hc & Hm0).
  exists (map (highlighted kw ic) (first :: rest)).
  split; [|apply highlighted_all].
  rewrite (stream_logs_compiled kw ic p _ Hk Hc). f_equal.
  assert (Hall' : Forall (fun l => is_new_log_entry l = true ->
                                   Re.p_search p l = true) rest).
  { revert Hall. apply Forall_impl. intros l Hl Hn. specialize (Hl Hn).
    rewrite (line_matches_compiled kw ic p l Hc) in Hl. congruence. }
  unfold out_of. cbn [turns]. unfold turn. rewrite Hm0.
  cbn [initial previous_line_matches orb].
  destruct (is_new_log_entry first) eqn:Hnew.
  - pose proof (turns_all (Re.p_search p) (highlighted kw ic) rest Hall'
                          (mkVars first true) eq_refl) as Ht.
    destruct (turns (Re.p_search p) (highlighted kw ic) (mkVars first true) rest)
      as [o w].
    change (end_flush (highlighted kw ic) initial) with (@nil string).
    cbn [app]. rewrite Ht. unfold buffered. cbn [previous_line].
    now rewrite (header_truthy first Hnew).
  - pose proof (turns_all (Re.p_search p) (highlighted kw ic) rest Hall'
                          (mkVars "" true) eq_refl) as Ht.
    destruct (turns (Re.p_search p) (highlighted kw ic) (mkVars "" true) rest)
      as [o w].
    change (buffered initial) with (@nil string).
    change (buffered (mkVars "" true)) with (@nil string) in Ht.
    cbn [map app] in *. now rewrite Ht.
Qed.

Lemma matching_headers_keep_everything_witness :
  truthy "ERROR" = true /\
  line_matches "ERROR" false "2024-01-01 ERROR boom" = Re.Ok true /\
  Forall (fun l => is_new_log_entry l = true ->
                   line_matches "ERROR" false l = Re.Ok true)
         [example_frame1; "2024-01-02 ERROR again"] /\
  exists out,
    stream_logs (Some "ERROR") false
      ("2024-01-01 ERROR boom" :: [example_frame1; "2024-01-02 ERROR again"])
    = (out, Re.Ok tt) /\
    Forall2 (fun line o => highlight "ERROR" false line = Re.Ok o)
      ("2024-01-01 ERROR boom" :: [example_frame1; "2024-01-02 ERROR again"])
      out.
Proof.
  split; [reflexivity|]. split; [reflexivity|].
  assert (H : Forall (fun l => is_new_log_entry l = true ->
                   line_matches "ERROR" false l = Re.Ok true)
         [example_frame1; "2024-01-02 ERROR again"]).
  { apply Forall_cons; [intros H; discriminate H|].
    apply Forall_cons; [intros _; reflexivity|]. apply Forall_nil. }
  split; [exact H|].
  apply (matching_headers_keep_everything "ERROR" false
           "2024-01-01 ERROR boom" _ eq_refl eq_refl H).
Defined.

(** X6.  A stream without any header line (the lines before the first
    header) is printed from its first matching line on: the lines before
    that one are dropped, every line after it is printed whether it matches
    or not. *)
Theorem headless_lines_from_first_match (kw : string) (ic : bool)
        (p : Re.pattern) (lines : list string) :
  truthy kw = true ->
  Re.compile kw ic = Re.Ok p ->
  Forall (fun l => is_new_log_entry l = false) lines ->
  stream_logs (Some kw) ic lines =
  (map (highlighted kw ic) (from_first_match (Re.p_search p) lines), Re.Ok tt).
Proof.
  intros Hk Hc Hall.
  rewrite (stream_logs_compiled kw ic p _ Hk Hc). f_equal.
  unfold out_of. rewrite (turns_headless _ _ lines Hall).
  destruct (from_first_match (Re.p_search p) lines); [reflexivity|].
  unfold end_flush. cbn [previous_line truthy andb]. now rewrite app_nil_r.
Qed.

Lemma headless_lines_from_first_match_witness :
  truthy "ERROR" = true /\
  Re.compile "ERROR" false = Re.Ok error_pattern /\
  Forall (fun l => is_new_log_entry l = false)
         [example_frame1; example_frame2; example_frame1] /\
  stream_logs (Some "ERROR") false
              [example_frame1; example_frame2; example_frame1] =
  (map (highlighted "ERROR" false)
       (from_first_match (Re.p_search error_pattern)
                         [example_frame1; example_frame2; example_frame1]),
   Re.Ok tt).
Proof.
  split; [reflexivity|]. split; [reflexivity|].
  assert (H : Forall (fun l => is_new_log_entry l = false)
         [example_frame1; example_frame2; example_frame1])
    by (repeat (apply Forall_cons; [reflexivity|]); apply Forall_nil).
  split; [exact H|].
  apply (headless_lines_from_first_match "ERROR" false error_pattern _
           eq_refl eq_refl H).
Defined.

(** * The rest of the program *)

(** ** [split], [join], [in] *)

Module StrFacts.
Import Cli Spec.
Local Open Scope char_scope.
Local Open Scope list_scope.

Lemma split_chars_nonempty sep (s : list ascii) : split_chars sep s <> [].
Proof.
  induction s as [|c s IH]; simpl; [discriminate|].
  destruct (Ascii.eqb c sep); [discriminate|].
  destruct (split_chars sep s); discriminate.
Qed.

(** No piece of a split holds the separator. *)
Lemma split_chars_pieces sep (s : list ascii) :
  Forall (fun w => ~ In sep w) (split_chars sep s).
Proof.
  induction s as [|c s IH]; simpl.
  - constructor; [intros []|constructor].
  - destruct (Ascii.eqb c sep) eqn:E.
    + constructor; [intros []|assumption].
    + assert (Hc : c <> sep)
        by (intros ->; now rewrite Ascii.eqb_refl in E).
      destruct (split_chars sep s) as [|w ws].
      * constructor; [|constructor]. intros [H|[]]. now apply Hc.
      * inversion IH as [|? ? Hw Hws]; subst.
        constructor; [|assumption].
        intros [H|H]; [now apply Hc | contradiction].
Qed.

Lemma split_chars_plain sep (x : list ascii) :
  ~ In sep x -> split_chars sep x = [x].
Proof.
  induction x as [|c x IH]; intros H; [reflexivity|]. simpl.
  destruct (Ascii.eqb c sep) eqn:E.
  - apply Ascii.eqb_eq in E. subst. exfalso. apply H. now left.
  - rewrite IH; [reflexivity|]. intros Hin. apply H. now right.
Qed.

Lemma split_chars_app sep (x y : list ascii) :
  ~ In sep x -> split_chars sep (x ++ sep :: y) = x :: split_chars sep y.
Proof.
  induction x as [|c x IH]; intros H; simpl.
  - now rewrite Ascii.eqb_refl.
  - destruct (Ascii.eqb c sep) eqn:E.
    + apply Ascii.eqb_eq in E. subst. exfalso. apply H. now left.
    + rewrite IH; [reflexivity|]. intros Hin. apply H. now right.
Qed.

(** Splitting what [join] made gives the parts back. *)
Lemma split_join sep (parts : list string) :
  parts <> [] ->
  Forall (fun part => ~ In sep (Re.chars part)) parts ->
  split_chars sep (Re.chars (String.concat (String sep "") parts))
  = map Re.chars parts.
Proof.
  intros Hne Hall. induction Hall as [|part rest Hp Hrest IH]; [congruence|].
  destruct rest as [|part' rest].
  - simpl. now apply split_chars_plain.
  - change (String.concat (String sep "") (part :: part' :: rest))
      with (part ++ String sep "" ++ String.concat (String sep "") (part' :: rest))%string.
    rewrite !chars_app. change (Re.chars (String sep "")) with [sep].
    cbn [app]. rewrite (split_chars_app sep _ _ Hp).
    cbn [map]. f_equal. apply IH. discriminate.
Qed.

Lemma starts_with_iff (p s : list ascii) :
  starts_with false p s = true <-> exists y, s = p ++ y.
Proof.
  revert s. induction p as [|c p IH]; intros s; simpl.
  - split; [intros _; now exists s | reflexivity].
  - destruct s as [|x s].
    + split; [discriminate | intros [y H]; discriminate].
    + unfold char_eqb. split.
      * intros H. apply andb_prop in H. destruct H as [E H].
        apply Ascii.eqb_eq in E. subst x. apply IH in H.
        destruct H as [y ->]. now exists y.
      * intros [y [= -> ->]]. rewrite Ascii.eqb_refl. simpl.
        apply IH. now exists y.
Qed.

Lemma occurs_iff (p s : list ascii) :
  occurs false p s = true <-> exists x y, s = x ++ p ++ y.
Proof.
  induction s as [|c s IH]; cbn [occurs].
  - rewrite orb_false_r, starts_with_iff. split.
    + intros [y H]. now exists [], y.
    + intros (x & y & H). destruct x; [now exists y|discriminate].
  - split.
    + intros H. apply orb_prop in H. destruct H as [H|H].
      * apply starts_with_iff in H. destruct H as [y H]. now exists [], y.
      * apply IH in H. destruct H as (x & y & ->). now exists (c :: x), y.
    + intros (x & y & H). apply orb_true_iff. destruct x as [|c' x].
      * left. apply starts_with_iff. now exists y.
      * right. apply IH. injection H as _ ->. now exists x, y.
Qed.

(** Being a substring is transitive. *)
Lemma occurs_trans (p a b : list ascii) :
  occurs false p a = true -> occurs false a b = true ->
  occurs false p b = true.
Proof.
  rewrite !occurs_iff. intros (x & y & ->) (x' & y' & ->).
  exists (x' ++ x), (y ++ y'). now rewrite <- !app_assoc.
Qed.

Lemma occurs_char (c : ascii) (s : list ascii) :
  occurs false [c] s = true <-> In c s.
Proof.
  rewrite occurs_iff. split.
  - intros (x & y & ->). apply in_or_app. right. now left.
  - intros H. apply in_split in H. destruct H as (x & y & ->). now exists x, y.
Qed.

End StrFacts.

(** ** The remote command of [stream_logs] *)

Lemma uint_digits (d : Decimal.uint) (c : ascii) :
  In c (Re.chars (NilEmpty.string_of_uint d)) -> is_digit c = true.
Proof.
  induction d as [|d IH|d IH|d IH|d IH|d IH|d IH|d IH|d IH|d IH|d IH];
    cbn [NilEmpty.string_of_uint Re.chars list_ascii_of_string In];
    try (intros [<-|H]; [reflexivity | now apply IH]).
  intros [].
Qed.

(** [str(n)] is written with digits and, at most, a minus sign. *)
Lemma str_int_chars (n : Z) (c : ascii) :
  In c (Re.chars (Cli.str_int n)) -> is_digit c = true \/ c = "-"%char.
Proof.
  unfold Cli.str_int, NilZero.string_of_int.
  assert (Hu : forall d, In c (Re.chars (NilZero.string_of_uint d)) ->
                         is_digit c = true).
  { intros d. destruct d; try apply uint_digits.
    cbn. intros [<-|[]]. reflexivity. }
  destruct (Z.to_int n) as [d|d].
  - intros H. left. now apply (Hu d).
  - cbn [Re.chars list_ascii_of_string In]. intros [<-|H]; [now right|].
    left. now apply (Hu d).
Qed.

Lemma str_int_no_blank (n : Z) : ~ In " "%char (Re.chars (Cli.str_int n)).
Proof.
  intros H. apply str_int_chars in H. destruct H as [H|H]; discriminate H.
Qed.

Lemma docker_command_parts_no_blank service_name lines follow :
  ~ In " "%char (Re.chars service_name) ->
  Forall (fun part => ~ In " "%char (Re.chars part))
         (Cli.docker_command_parts service_name lines follow).
Proof.
  intros Hs.
  assert (Hw : forall w, In w ["docker"; "service"; "logs"; "--raw"; "-f";
                               "--tail"; "10"] ->
                         ~ In " "%char (Re.chars w)).
  { intros w Hin. cbn in Hin.
    repeat (destruct Hin as [<-|Hin];
            [cbn; intuition discriminate|]). contradiction. }
  assert (Hl : Cli.int_truthy lines = true ->
               ~ In " "%char (Re.chars (Cli.str_lines lines))).
  { destruct lines as [n|]; [|discriminate]. intros _.
    apply str_int_no_blank. }
  unfold Cli.docker_command_parts.
  destruct follow; [|destruct (Cli.int_truthy lines) eqn:E];
    [destruct (Cli.int_truthy lines) eqn:E| |];
    cbn [app];
    repeat (apply Forall_cons;
            [first [exact Hs | apply Hl; reflexivity | apply Hw; cbn; tauto]|]);
    apply Forall_nil.
Qed.

(** X8.  The command handed to the remote shell is never quoted.  Its
    blank-separated words are [docker service logs --raw], then [-f] and
    [--tail N] as the options ask, then the service name, exactly when the
    service name holds no blank; a name with a blank is read as several
    words. *)
Theorem docker_command_words (service_name : string) (lines : option Z)
        (follow : bool) :
  Cli.str_split " " (Cli.docker_command_str service_name lines follow)
  = Cli.docker_command_parts service_name lines follow
  <-> Cli.str_in " " service_name = false.
Proof.
  unfold Cli.str_in. change (Re.chars " ") with [" "%char]. split.
  - intros H.
    destruct (Spec.occurs false [" "%char] (Re.chars service_name)) eqn:E;
      [|reflexivity].
    apply StrFacts.occurs_char in E. exfalso.
    assert (Hin : In service_name
                     (Cli.docker_command_parts service_name lines follow)).
    { unfold Cli.docker_command_parts. apply in_or_app. right. now left. }
    rewrite <- H in Hin. unfold Cli.str_split in Hin.
    apply in_map_iff in Hin. destruct Hin as (w & Hw & Hin).
    pose proof (StrFacts.split_chars_pieces " "%char
                  (Re.chars (Cli.docker_command_str service_name lines follow)))
      as Hp.
    rewrite Forall_forall in Hp. apply (Hp w Hin).
    rewrite <- Hw, chars_text in E. exact E.
  - intros E.
    assert (Hs : ~ In " "%char (Re.chars service_name)).
    { intros Hin. apply StrFacts.occurs_char in Hin. congruence. }
    unfold Cli.str_split, Cli.docker_command_str.
    rewrite (StrFacts.split_join " "%char).
    + rewrite map_map. rewrite <- (map_id (Cli.docker_command_parts _ _ _)) at 2.
      apply map_ext. intros part. apply text_chars.
    + unfold Cli.docker_command_parts. intros Hnil.
      apply app_eq_nil in Hnil. destruct Hnil as [_ Hnil]. discriminate.
    + now apply docker_command_parts_no_blank.
Qed.

(** ** [find_service_name] *)

Lemma find_service_name_cases co (ssh_target partial_name result : string) :
  co ["ssh"; ssh_target; Cli.docker_cmd] = Cli.Output result ->
  Cli.find_service_name co ssh_target partial_name =
  match filter (fun name => Cli.str_in partial_name name)
               (Cli.str_split LF (Cli.str_strip result)) with
  | [] => Cli.Exits 1 (Cli.NoServiceFound partial_name ssh_target)
  | [name] => Cli.Returns name
  | ms => Cli.Exits 1 (Cli.AmbiguousService partial_name ms)
  end.
Proof.
  intros H. unfold Cli.find_service_name. rewrite H.
  destruct (filter _ _) as [|a [|b l]]; reflexivity.
Qed.

Lemma find_service_name_returns co (ssh_target partial_name name : string) :
  Cli.find_service_name co ssh_target partial_name = Cli.Returns name ->
  exists result,
    co ["ssh"; ssh_target; Cli.docker_cmd] = Cli.Output result /\
    filter (fun n => Cli.str_in partial_name n)
           (Cli.str_split LF (Cli.str_strip result)) = [name].
Proof.
  intros H.
  destruct (co ["ssh"; ssh_target; Cli.docker_cmd]) as [result| | |] eqn:E;
    try (unfold Cli.find_service_name in H; rewrite E in H; discriminate H).
  exists result. split; [reflexivity|].
  rewrite (find_service_name_cases co _ _ result E) in H.
  destruct (filter _ _) as [|a [|b l]]; try discriminate H.
  now injection H as ->.
Qed.

Lemma find_service_name_only_match co
      (ssh_target partial_name name : string) :
  Cli.find_service_name co ssh_target partial_name = Cli.Returns name ->
  exists result,
    co ["ssh"; ssh_target; Cli.docker_cmd] = Cli.Output result /\
    In name (Cli.str_split LF (Cli.str_strip result)) /\
    Cli.str_in partial_name name = true /\
    forall other,
      In other (Cli.str_split LF (Cli.str_strip result)) ->
      Cli.str_in partial_name other = true -> other = name.
Proof.
  intros H. destruct (find_service_name_returns _ _ _ _ H) as (result & E & F).
  exists result. split; [exact E|].
  assert (Hin : In name (filter (fun n => Cli.str_in partial_name n)
                   (Cli.str_split LF (Cli.str_strip result))))
    by (rewrite F; now left).
  apply filter_In in Hin. destruct Hin as [Hin Hp].
  split; [exact Hin|]. split; [exact Hp|].
  intros other Ho Hpo.
  assert (Hof : In other (filter (fun n => Cli.str_in partial_name n)
                   (Cli.str_split LF (Cli.str_strip result))))
    by (apply filter_In; now split).
  rewrite F in Hof. destruct Hof as [<-|[]]. reflexivity.
Qed.

(** X9.  A name that [find_service_name] returns is one of the lines of
    the listing, holds the partial name and no newline, and is the only
    listed name that holds the partial name. *)
Theorem find_service_name_sound co (ssh_target partial_name name : string) :
  Cli.find_service_name co ssh_target partial_name = Cli.Returns name ->
  exists result,
    co ["ssh"; ssh_target; Cli.docker_cmd] = Cli.Output result /\
    In name (Cli.str_split LF (Cli.str_strip result)) /\
    Cli.str_in partial_name name = true /\
    ~ In LF (Re.chars name) /\
    forall other,
      In other (Cli.str_split LF (Cli.str_strip result)) ->
      Cli.str_in partial_name other = true -> other = name.
Proof.
  intros H.
  destruct (find_service_name_only_match _ _ _ _ H)
    as (result & E & Hin & Hp & Huniq).
  exists result. repeat (split; [assumption|]). split; [|exact Huniq].
  unfold Cli.str_split in Hin. apply in_map_iff in Hin.
  destruct Hin as (w & <- & Hw). rewrite chars_text.
  pose proof (StrFacts.split_chars_pieces LF
                (Re.chars (Cli.str_strip result))) as Hall.
  rewrite Forall_forall in Hall. now apply Hall.
Qed.

Lemma find_service_name_sound_witness :
  let co := fun _ : list string =>
              Cli.Output (service_listing ["api"; "web"; "worker"]) in
  Cli.find_service_name co "user@host" "ap" = Cli.Returns "api" /\
  exists result,
    co ["ssh"; "user@host"; Cli.docker_cmd] = Cli.Output result /\
    In "api" (Cli.str_split LF (Cli.str_strip result)) /\
    Cli.str_in "ap" "api" = true /\
    ~ In LF (Re.chars "api") /\
    forall other,
      In other (Cli.str_split LF (Cli.str_strip result)) ->
      Cli.str_in "ap" other = true -> other = "api".
Proof.
  intros co. split; [reflexivity|].
  apply (find_service_name_sound co "user@host" "ap" "api"). reflexivity.
Defined.

(** X10.  A service whose name is part of another listed name can never
    be selected: whatever partial name is given, [find_service_name] does
    not return it (the exact name does not break the tie). *)
Theorem shadowed_service_never_returned co
        (ssh_target result shadowed other : string) :
  co ["ssh"; ssh_target; Cli.docker_cmd] = Cli.Output result ->
  In other (Cli.str_split LF (Cli.str_strip result)) ->
  other <> shadowed ->
  Cli.str_in shadowed other = true ->
  forall partial_name,
    Cli.find_service_name co ssh_target partial_name <> Cli.Returns shadowed.
Proof.
  intros E Ho Hne Hsub partial_name H.
  destruct (find_service_name_only_match _ _ _ _ H)
    as (result' & E' & _ & Hp & Huniq).
  rewrite E in E'. injection E' as <-.
  apply Hne. apply Huniq; [exact Ho|].
  unfold Cli.str_in in *.
  exact (StrFacts.occurs_trans _ _ _ Hp Hsub).
Qed.

Lemma shadowed_service_never_returned_witness :
  let co := fun _ : list string =>
              Cli.Output (service_listing ["api"; "api-v2"]) in
  co ["ssh"; "user@host"; Cli.docker_cmd]
    = Cli.Output (service_listing ["api"; "api-v2"]) /\
  In "api-v2" (Cli.str_split LF
                 (Cli.str_strip (service_listing ["api"; "api-v2"]))) /\
  "api-v2" <> "api" /\
  Cli.str_in "api" "api-v2" = true /\
  forall partial_name,
    Cli.find_service_name co "user@host" partial_name <> Cli.Returns "api".
Proof.
  intros co. split; [reflexivity|].
  assert (Hin : In "api-v2" (Cli.str_split LF
                 (Cli.str_strip (service_listing ["api"; "api-v2"]))))
    by (vm_compute; tauto).
  split; [exact Hin|]. split; [discriminate|]. split; [reflexivity|].
  apply (shadowed_service_never_returned co "user@host"
           (service_listing ["api"; "api-v2"]) "api" "api-v2" eq_refl Hin).
  - discriminate.
  - reflexivity.
Defined.

(** *** Reading the listing back *)

Module ListingFacts.
Import Cli.
Local Open Scope char_scope.
Local Open Scope list_scope.

Lemma joined_cons (name name' : string) (rest : list string) :
  joined (name :: name' :: rest)
  = Re.chars name ++ LF :: joined (name' :: rest).
Proof.
  unfold joined.
  change (String.concat (String LF "") (name :: name' :: rest))
    with (name ++ String LF "" ++ String.concat (String LF "") (name' :: rest))%string.
  now rewrite !chars_app.
Qed.

Lemma listing_cons (name : string) (rest : list string) :
  Re.chars (service_listing (name :: rest))
  = Re.chars name ++ LF :: Re.chars (service_listing rest).
Proof.
  change (service_listing (name :: rest))
    with (name ++ String LF (service_listing rest))%string.
  now rewrite chars_app.
Qed.

Lemma listing_joined (names : list string) :
  names <> [] ->
  Re.chars (service_listing names) = joined names ++ [LF].
Proof.
  induction names as [|name rest IH]; [congruence|]. intros _.
  rewrite listing_cons. destruct rest as [|name' rest].
  - reflexivity.
  - rewrite IH by discriminate. rewrite joined_cons.
    now rewrite <- app_assoc.
Qed.

Lemma plain_name_chars (name : string) :
  plain_name name = true ->
  Re.chars name <> [] /\
  Forall (fun c => is_space c = false) (Re.chars name).
Proof.
  unfold plain_name. intros H. apply andb_prop in H. destruct H as [Ht Hf].
  split; [now apply truthy_nonempty|].
  rewrite forallb_forall in Hf. apply Forall_forall. intros c Hc.
  specialize (Hf c Hc). now apply negb_true_iff in Hf.
Qed.

Lemma plain_name_no_newline (name : string) :
  plain_name name = true -> ~ In LF (Re.chars name).
Proof.
  intros H Hin. destruct (plain_name_chars name H) as [_ Hall].
  rewrite Forall_forall in Hall. specialize (Hall LF Hin). discriminate Hall.
Qed.

Lemma lstrip_kept (c : ascii) (s : list ascii) :
  is_space c = false -> lstrip (c :: s) = c :: s.
Proof. intros H. simpl. now rewrite H. Qed.

Lemma joined_head (names : list string) :
  names <> [] ->
  Forall (fun name => plain_name name = true) names ->
  exists c tl, joined names = c :: tl /\ is_space c = false.
Proof.
  intros Hne Hall. destruct Hall as [|name rest Hn _]; [congruence|].
  destruct (plain_name_chars name Hn) as [Hc Hs].
  destruct (Re.chars name) as [|c tl] eqn:E; [congruence|].
  inversion Hs; subst.
  destruct rest as [|name' rest].
  - exists c, tl. split; [|assumption]. unfold joined. cbn. exact E.
  - exists c, (tl ++ LF :: joined (name' :: rest)).
    split; [|assumption]. rewrite joined_cons, E. reflexivity.
Qed.

Lemma joined_last (names : list string) :
  names <> [] ->
  Forall (fun name => plain_name name = true) names ->
  exists d tl, rev (joined names) = d :: tl /\ is_space d = false.
Proof.
  intros Hne Hall. induction Hall as [|name rest Hn Hrest IH]; [congruence|].
  destruct rest as [|name' rest].
  - destruct (plain_name_chars name Hn) as [Hc Hs].
    unfold joined. cbn [String.concat].
    apply Forall_rev in Hs.
    destruct (rev (Re.chars name)) as [|d tl] eqn:E.
    + exfalso. apply Hc. rewrite <- (rev_involutive (Re.chars name)), E.
      reflexivity.
    + inversion Hs; subst. now exists d, tl.
  - destruct IH as (d & tl & E & Hd); [discriminate|].
    rewrite joined_cons, rev_app_distr. cbn [rev]. rewrite E.
    exists d, (tl ++ [LF] ++ rev (Re.chars name)). split; [|assumption].
    now rewrite <- !app_assoc.
Qed.

(** [strip] takes the last newline off the listing, nothing else. *)
Lemma strip_listing (names : list string) :
  names <> [] ->
  Forall (fun name => plain_name name = true) names ->
  str_strip (service_listing names) = String.concat (String LF "") names.
Proof.
  intros Hne Hall. unfold str_strip.
  rewrite (listing_joined names Hne).
  destruct (joined_head names Hne Hall) as (c & tl & E & Hc).
  destruct (joined_last names Hne Hall) as (d & tl' & E' & Hd).
  rewrite E at 1. cbn [app]. rewrite (lstrip_kept c _ Hc).
  change (c :: tl ++ [LF]) with ((c :: tl) ++ [LF]). rewrite <- E.
  rewrite rev_app_distr. cbn [rev app].
  change (lstrip (LF :: rev (joined names))) with (lstrip (rev (joined names))).
  rewrite E', (lstrip_kept d _ Hd), <- E', rev_involutive.
  unfold joined. apply text_chars.
Qed.

Lemma names_of_listing (names : list string) :
  names <> [] ->
  Forall (fun name => plain_name name = true) names ->
  str_split LF (str_strip (service_listing names)) = names.
Proof.
  intros Hne Hall. rewrite (strip_listing names Hne Hall). unfold str_split.
  rewrite (StrFacts.split_join LF names Hne).
  - rewrite map_map. rewrite <- (map_id names) at 2.
    apply map_ext. intros name. apply text_chars.
  - revert Hall. apply Forall_impl. intros name.
    apply plain_name_no_newline.
Qed.

End ListingFacts.

(** X11.  On the listing of well-formed service names, and for a
    non-empty partial name, [find_service_name] goes by the number of
    services whose name holds the partial name: none, it exits with status 1;
    one, it returns that name; several, it exits with status 1 and names
    them. *)
Theorem find_service_name_on_listing co (ssh_target partial_name : string)
        (names : list string) :
  co ["ssh"; ssh_target; Cli.docker_cmd] = Cli.Output (service_listing names) ->
  Forall (fun name => plain_name name = true) names ->
  truthy partial_name = true ->
  Cli.find_service_name co ssh_target partial_name =
  match filter (fun name => Cli.str_in partial_name name) names with
  | [] => Cli.Exits 1 (Cli.NoServiceFound partial_name ssh_target)
  | [name] => Cli.Returns name
  | ms => Cli.Exits 1 (Cli.AmbiguousService partial_name ms)
  end.
Proof.
  intros E Hall Hp. rewrite (find_service_name_cases co _ _ _ E).
  destruct names as [|name rest].
  - cbn [service_listing fold_right filter].
    change (Cli.str_split LF (Cli.str_strip "")) with [""].
    cbn [filter]. unfold Cli.str_in. cbn [Re.chars list_ascii_of_string].
    destruct partial_name as [|c partial_name]; [discriminate Hp|].
    reflexivity.
  - now rewrite (ListingFacts.names_of_listing (name :: rest)).
Qed.

Lemma find_service_name_on_listing_witness :
  let co := fun _ : list string =>
              Cli.Output (service_listing ["api"; "web"; "worker"]) in
  co ["ssh"; "user@host"; Cli.docker_cmd]
    = Cli.Output (service_listing ["api"; "web"; "worker"]) /\
  Forall (fun name => plain_name name = true) ["api"; "web"; "worker"] /\
  truthy "w" = true /\
  Cli.find_service_name co "user@host" "w" =
  match filter (fun name => Cli.str_in "w" name) ["api"; "web"; "worker"] with
  | [] => Cli.Exits 1 (Cli.NoServiceFound "w" "user@host")
  | [name] => Cli.Returns name
  | ms => Cli.Exits 1 (Cli.AmbiguousService "w" ms)
  end.
Proof.
  intros co. split; [reflexivity|].
  assert (H : Forall (fun name => plain_name name = true)
                     ["api"; "web"; "worker"])
    by (repeat (apply Forall_cons; [reflexivity|]); apply Forall_nil).
  split; [exact H|]. split; [reflexivity|].
  apply (find_service_name_on_listing co "user@host" "w"
           ["api"; "web"; "worker"] eq_refl H eq_refl).
Defined.

(** ** [main] *)


(** X13.  Called as [dlog user@host service] with no keyword (or an empty
    one), when the partial name selects a service and the log process can be
    started and read to its end, [main] prints the banner and then the
    lines that [readline] returned (the output of the process decoded as
    UTF-8, with CR LF and CR turned into LF), each unchanged and in order,
    and ends normally. *)
Theorem main_without_keyword (w : Cli.world) (a : Cli.args)
        (service full_service_name : string)
        (out : list string) (stderr : string) (returncode : Z) :
  Cli.str_in "@" (Cli.target_or_service a) = true ->
  Cli.service_or_keyword a = Some service ->
  truthy service = true ->
  has_keyword (Cli.keyword a) = false ->
  Cli.find_service_name (Cli.check_output w) (Cli.target_or_service a) service
    = Cli.Returns full_service_name ->
  Cli.popen w (Cli.ssh_command (Cli.target_or_service a) full_service_name
                               (Some (Cli.lines a)) (Cli.follow a))
    = Cli.Process out stderr returncode ->
  Cli.run_stdout (Cli.main w a)
    = Cli.banner full_service_name (Cli.target_or_service a) :: out /\
  Cli.run_end (Cli.main w a) = Cli.Completed.
Proof.
  intros Hat Hs Ht Hk Hf Hp. unfold Cli.main.
  rewrite Hat, Hs, Ht. cbn [negb]. rewrite Hf.
  unfold Cli.stream_logs_call. rewrite Hp.
  unfold stream_logs.
  rewrite (loop_pass_through (Cli.keyword a) (Cli.ignore_case a) out Hk initial).
  cbn. rewrite app_nil_r. now split.
Qed.

Lemma main_without_keyword_witness :
  let a := Cli.mkArgs "user@host" (Some "ap") None 100 false false in
  Cli.str_in "@" (Cli.target_or_service a) = true /\
  Cli.service_or_keyword a = Some "ap" /\
  truthy "ap" = true /\
  has_keyword (Cli.keyword a) = false /\
  Cli.find_service_name (Cli.check_output example_world)
                        (Cli.target_or_service a) "ap" = Cli.Returns "api" /\
  Cli.popen example_world
            (Cli.ssh_command (Cli.target_or_service a) "api"
                             (Some (Cli.lines a)) (Cli.follow a))
    = Cli.Process example_entry "" 0 /\
  Cli.run_stdout (Cli.main example_world a)
    = Cli.banner "api" (Cli.target_or_service a) :: example_entry /\
  Cli.run_end (Cli.main example_world a) = Cli.Completed.
Proof.
  intros a. repeat (split; [reflexivity|]).
  apply (main_without_keyword example_world a "ap" "api" example_entry "" 0);
    reflexivity.
Defined.

(** X14.  The configuration file only supplies the first argument: with
    a configured target that holds an [@], [dlog service keyword] runs as
    [dlog target service keyword] does, and a third positional argument, if
    given, is not looked at. *)
Theorem configured_target_is_first_argument (w : Cli.world)
        (target service : string) (kw third : option string)
        (n : Z) (f i : bool) :
  Cli.config w = Cli.ConfigTarget target ->
  Cli.str_in "@" target = true ->
  Cli.str_in "@" service = false ->
  Cli.main w (Cli.mkArgs service kw third n f i)
  = Cli.main w (Cli.mkArgs target (Some service) kw n f i).
Proof.
  intros Hc Ht Hs. unfold Cli.main.
  cbn [Cli.target_or_service Cli.service_or_keyword Cli.keyword Cli.lines
       Cli.follow Cli.ignore_case].
  rewrite Hs, Ht, Hc. reflexivity.
Qed.

Lemma configured_target_is_first_argument_witness :
  let w := Cli.mkWorld (Cli.ConfigTarget "user@host")
             (Cli.check_output example_world) (Cli.popen example_world) in
  Cli.config w = Cli.ConfigTarget "user@host" /\
  Cli.str_in "@" "user@host" = true /\
  Cli.str_in "@" "api" = false /\
  Cli.main w (Cli.mkArgs "api" (Some "ERROR") (Some "extra") 100 false false)
  = Cli.main w (Cli.mkArgs "user@host" (Some "api") (Some "ERROR") 100 false false).
Proof.
  intros w. repeat (split; [reflexivity|]).
  apply (configured_target_is_first_argument w "user@host" "api"
           (Some "ERROR") (Some "extra") 100 false false); reflexivity.
Defined.

(** ** An ill-formed keyword *)

(** X15.  A keyword that [re] rejects as a pattern is found out only at
    the first line of the log: from then on nothing is printed, the call of
    [stream_logs] reports an unexpected error and returns normally, and the
    exit status of the log process is not looked at. *)
Theorem rejected_keyword_silences_the_log
        (popen_ : list string -> Cli.popen_result)
        (ssh_target service_name kw : string) (lines : option Z)
        (follow ic : bool)
        (line : string) (rest : list string) (stderr : string)
        (returncode : Z) :
  truthy kw = true ->
  Re.compile kw ic = Re.Raised ->
  popen_ (Cli.ssh_command ssh_target service_name lines follow)
    = Cli.Process (line :: rest) stderr returncode ->
  Cli.stream_logs_call popen_ ssh_target service_name (Some kw) lines follow ic
  = Cli.mkRun [] [Cli.UnexpectedError] Cli.Completed.
Proof.
  intros Hk Hc Hp. unfold Cli.stream_logs_call. rewrite Hp.
  assert (H : stream_logs (Some kw) ic (line :: rest) = ([], Re.Raised)).
  { unfold stream_logs. cbn [loop]. unfold iteration, line_matches, Re.search.
    rewrite Hk, Hc. cbn [negb initial previous_line truthy andb].
    rewrite andb_false_r. reflexivity. }
  now rewrite H.
Qed.

Lemma rejected_keyword_silences_the_log_witness :
  truthy "f(" = true /\
  Re.compile "f(" false = Re.Raised /\
  Cli.popen example_world (Cli.ssh_command "user@host" "api" (Some 100%Z) false)
    = Cli.Process (example_header :: [example_frame1; example_frame2]) "" 0 /\
  Cli.stream_logs_call (Cli.popen example_world) "user@host" "api" (Some "f(")
                       (Some 100%Z) false false
  = Cli.mkRun [] [Cli.UnexpectedError] Cli.Completed.
Proof.
  repeat (split; [reflexivity|]).
  apply (rejected_keyword_silences_the_log (Cli.popen example_world)
           "user@host" "api" "f(" (Some 100%Z) false false
           example_header [example_frame1; example_frame2] "" 0);
    reflexivity.
Defined.

(** ** What is on the screen while the log is followed *)

(** X16.  With a keyword that compiles, a header line is shown one line
    late and a continuation line at once: right after a header has been
    read, the loop has printed exactly what the program prints for the lines
    before it; right after a continuation line has been read, it has printed
    everything the program prints for the lines read so far. *)
Theorem header_shown_one_line_late (kw : string) (ic : bool) (p : Re.pattern)
        (pre : list string) (line : string) :
  truthy kw = true ->
  Re.compile kw ic = Re.Ok p ->
  stdout (loop (Some kw) ic initial (pre ++ [line])%list) =
  if is_new_log_entry line
  then stdout (stream_logs (Some kw) ic pre)
  else stdout (stream_logs (Some kw) ic (pre ++ [line])%list).
Proof.
  intros Hk Hc.
  rewrite (loop_compiled kw ic p _ Hk Hc initial).
  rewrite !(stream_logs_compiled kw ic p _ Hk Hc).
  unfold stdout, out_of. cbn [fst].
  pose proof (end_flush_last (Re.p_search p) (highlighted kw ic)
                (pre ++ [line]) initial) as Hlast.
  rewrite rev_app_distr in Hlast. cbn [rev app] in Hlast.
  rewrite turns_app in *.
  destruct (turns (Re.p_search p) (highlighted kw ic) initial pre) as [o1 v1].
  cbn [turns] in *.
  destruct (is_new_log_entry line) eqn:Hnew.
  - rewrite (turn_header _ _ v1 line Hnew). cbn [fst].
    now rewrite app_nil_r.
  - destruct (turn (Re.p_search p) (highlighted kw ic) v1 line) as [o2 v2].
    cbn [fst snd andb] in *. now rewrite Hlast, !app_nil_r.
Qed.

Lemma header_shown_one_line_late_witness :
  truthy "ERROR" = true /\
  Re.compile "ERROR" false = Re.Ok error_pattern /\
  stdout (loop (Some "ERROR") false initial
               ([example_header; example_frame2] ++ ["2024-01-02 ERROR again"])%list) =
  if is_new_log_entry "2024-01-02 ERROR again"
  then stdout (stream_logs (Some "ERROR") false [example_header; example_frame2])
  else stdout (stream_logs (Some "ERROR") false
                 ([example_header; example_frame2] ++ ["2024-01-02 ERROR again"])%list).
Proof.
  split; [reflexivity|]. split; [reflexivity|].
  apply (header_shown_one_line_late "ERROR" false error_pattern
           [example_header; example_frame2] "2024-01-02 ERROR again");
    reflexivity.
Defined.

(** * The loop, whatever [re.search] does *)

(** The program is the instance at the model of [re.search]. *)
Lemma main_instance (w : Cli.world) (a : Cli.args) :
  Cli.main w a = Cli.main_with Re.search w a.
Proof. reflexivity. Qed.

Lemma stream_logs_instance (keyword : option string) (ic : bool)
      (lines : list string) :
  stream_logs keyword ic lines = stream_logs_with Re.search keyword ic lines.
Proof. reflexivity. Qed.

Section AnyRuns.
Import Spec SubseqFacts.
Local Open Scope list_scope.
Variable re_search : string -> string -> bool -> Re.result bool.
Variable kw : string.
Variable ic : bool.
Hypothesis kw_truthy : truthy kw = true.

Local Abbreviation A := (accepts re_search kw ic).
Local Abbreviation H := (highlighted kw ic).

(** A turn in which the match test returns. *)
Lemma iteration_with_returns (v : vars) (line : string) :
  returns re_search kw ic line = true ->
  iteration_with re_search (Some kw) ic v line =
  (fst (turn A H v line), Re.Ok (snd (turn A H v line))).
Proof.
  unfold returns, accepts, iteration_with, turn, end_flush, buffered,
    print_highlighted.
  rewrite kw_truthy. destruct v as [prev pm].
  cbn [negb previous_line previous_line_matches].
  destruct (re_search kw line ic) as [b| |]; try discriminate. intros _.
  destruct (is_new_log_entry line); destruct prev as [|c prev];
    destruct pm; destruct b;
    cbn [truthy andb orb mbind call ret print previous_line
         previous_line_matches fst snd app map];
    rewrite ?highlight_returns;
    cbn [truthy andb orb mbind call ret print previous_line
         previous_line_matches fst snd app map];
    rewrite ?highlight_returns;
    reflexivity.
Qed.

(** A turn in which it does not: the header that a new header closes is
    printed first, then the exception leaves the loop. *)
Lemma iteration_with_fails (v : vars) (line : string) :
  returns re_search kw ic line = false ->
  exists r,
    iteration_with re_search (Some kw) ic v line =
    ((if is_new_log_entry line then end_flush H v else []), r) /\
    forall x, r <> Re.Ok x.
Proof.
  unfold returns, iteration_with, end_flush, print_highlighted.
  rewrite kw_truthy. destruct v as [prev pm].
  cbn [negb previous_line previous_line_matches].
  destruct (re_search kw line ic) as [b| |]; try discriminate; intros _.
  - exists Re.Raised. split; [|discriminate].
    destruct (is_new_log_entry line); destruct prev as [|c prev]; destruct pm;
      cbn [truthy andb mbind call ret print]; rewrite ?highlight_returns;
      reflexivity.
  - exists Re.Unmodelled. split; [|discriminate].
    destruct (is_new_log_entry line); destruct prev as [|c prev]; destruct pm;
      cbn [truthy andb mbind call ret print]; rewrite ?highlight_returns;
      reflexivity.
Qed.

Lemma loop_with_returns (lines : list string) :
  forallb (returns re_search kw ic) lines = true ->
  forall v,
    loop_with re_search (Some kw) ic v lines =
    (fst (turns A H v lines), Re.Ok (snd (turns A H v lines))).
Proof.
  induction lines as [|line rest IH]; intros Hr v; [reflexivity|].
  cbn [forallb] in Hr. apply andb_prop in Hr. destruct Hr as [Hl Hr].
  cbn [loop_with turns]. rewrite (iteration_with_returns v line Hl).
  destruct (turn A H v line) as [o v1]. cbn [mbind fst snd].
  rewrite (IH Hr v1). now destruct (turns A H v1 rest).
Qed.

(** What the loop has printed when it ends, normally or not, is what the
    loop prints for the lines up to some point of the input, all of it when
    the match test returned on every line. *)
Lemma loop_with_prefix (lines : list string) :
  forall v,
  exists done rest,
    lines = done ++ rest /\
    fst (loop_with re_search (Some kw) ic v lines) = fst (turns A H v done) /\
    (forallb (returns re_search kw ic) lines = false ->
     forall x, snd (loop_with re_search (Some kw) ic v lines) <> Re.Ok x).
Proof.
  induction lines as [|line lines IH]; intros v.
  - exists [], []. repeat split. discriminate.
  - cbn [loop_with forallb].
    destruct (returns re_search kw ic line) eqn:Hl.
    + rewrite (iteration_with_returns v line Hl).
      destruct (IH (snd (turn A H v line))) as (done & rest & E & Ho & Hf).
      exists (line :: done), rest. split; [now rewrite E|].
      cbn [turns]. destruct (turn A H v line) as [o v1]. cbn [mbind fst snd] in *.
      destruct (loop_with re_search (Some kw) ic v1 lines) as [o' r].
      cbn [fst snd] in *. subst o'.
      destruct (turns A H v1 done) as [o2 v2]. cbn [fst].
      split; [reflexivity|]. cbn [andb]. exact Hf.
    + destruct (iteration_with_fails v line Hl) as (r & Hit & Hr).
      rewrite Hit.
      assert (Hres : forall o,
                mbind (o, r) (fun v' => loop_with re_search (Some kw) ic v' lines)
                = (o, r)).
      { intros o. destruct r as [x| |]; [now destruct (Hr x)| |]; reflexivity. }
      rewrite Hres. cbn [fst snd andb].
      destruct (is_new_log_entry line) eqn:Hnew.
      * exists [line], lines. split; [reflexivity|]. cbn [turns].
        rewrite (turn_header A H v line Hnew). cbn [fst].
        split; [now rewrite app_nil_r|]. intros _. exact Hr.
      * exists [], (line :: lines). split; [reflexivity|].
        split; [reflexivity|]. intros _. exact Hr.
Qed.

Lemma stream_logs_with_returns (lines : list string) :
  forallb (returns re_search kw ic) lines = true ->
  stream_logs_with re_search (Some kw) ic lines = (out_of A H lines, Re.Ok tt).
Proof.
  intros Hr. unfold stream_logs_with, out_of.
  rewrite (loop_with_returns lines Hr initial).
  destruct (turns A H initial lines) as [o [prev pm]].
  cbn [mbind fst snd]. unfold last_line, end_flush, print_highlighted.
  cbn [previous_line previous_line_matches].
  destruct (truthy prev && pm); cbn [mbind call ret print];
    rewrite ?highlight_returns; reflexivity.
Qed.

(** When the loop is left by an exception nothing is printed after it. *)
Lemma stream_logs_with_fails (lines : list string) :
  forallb (returns re_search kw ic) lines = false ->
  exists out r,
    loop_with re_search (Some kw) ic initial lines = (out, r) /\
    (forall v, r <> Re.Ok v) /\
    stdout (stream_logs_with re_search (Some kw) ic lines) = out.
Proof.
  intros Hf. destruct (loop_with_prefix lines initial) as (_ & _ & _ & _ & Hr).
  specialize (Hr Hf). unfold stream_logs_with.
  destruct (loop_with re_search (Some kw) ic initial lines) as [out r].
  exists out, r. cbn [snd] in Hr. split; [reflexivity|]. split; [exact Hr|].
  destruct r as [v| |]; [now destruct (Hr v)| |]; reflexivity.
Qed.

(** In every case the output is an initial part of what the loop prints
    with the test [accepts]. *)
Lemma stream_logs_with_prefix (lines : list string) :
  exists more,
    stdout (stream_logs_with re_search (Some kw) ic lines) ++ more
    = out_of A H lines.
Proof.
  destruct (forallb (returns re_search kw ic) lines) eqn:Hr.
  - exists []. rewrite (stream_logs_with_returns lines Hr).
    apply app_nil_r.
  - destruct (stream_logs_with_fails lines Hr) as (out & r & Hl & _ & ->).
    destruct (loop_with_prefix lines initial) as (done & rest & E & Ho & _).
    rewrite Hl in Ho. cbn [fst] in Ho. subst out.
    unfold out_of. rewrite E, turns_app.
    destruct (turns A H initial done) as [o1 v1].
    destruct (turns A H v1 rest) as [o2 v2]. cbn [fst].
    exists (o2 ++ end_flush H v2). now rewrite <- app_assoc.
Qed.

Lemma stream_logs_with_select (lines : list string) :
  exists sel,
    subsequence sel lines /\
    stdout (stream_logs_with re_search (Some kw) ic lines) = map H sel.
Proof.
  destruct (forallb (returns re_search kw ic) lines) eqn:Hr.
  - rewrite (stream_logs_with_returns lines Hr).
    destruct (out_of_select A H lines) as (sel & Ho & Hs).
    exists sel. now split.
  - destruct (stream_logs_with_fails lines Hr) as (out & r & Hl & _ & ->).
    destruct (loop_with_prefix lines initial) as (done & rest & E & Ho & _).
    rewrite Hl in Ho. cbn [fst] in Ho. subst out.
    destruct (turns_select A H done initial) as (sel & Hsel & Hsub).
    exists sel. split; [|exact Hsel].
    change (buffered initial ++ done) with done in Hsub.
    apply subsequence_app_l in Hsub. rewrite E.
    rewrite <- (app_nil_r sel).
    apply subsequence_app; [exact Hsub | apply subsequence_nil_l].
Qed.
End AnyRuns.

Section AnyStops.
Local Open Scope list_scope.
Variable re_search : string -> string -> bool -> Re.result bool.
Variable kw : string.
Variable ic : bool.
Hypothesis kw_truthy : truthy kw = true.

Local Abbreviation A := (accepts re_search kw ic).
Local Abbreviation H := (highlighted kw ic).

(** Where the loop stops when the match test raises: at the first line on
    which it does, after the header that this line closes, if it is one. *)
Lemma loop_with_stops (lines : list string) :
  forallb (returns re_search kw ic) lines = false ->
  forall v,
  exists done line rest r,
    lines = done ++ line :: rest /\
    forallb (returns re_search kw ic) done = true /\
    returns re_search kw ic line = false /\
    loop_with re_search (Some kw) ic v lines =
      (fst (turns A H v done) ++
       (if is_new_log_entry line
        then end_flush H (snd (turns A H v done)) else []), r) /\
    forall x, r <> Re.Ok x.
Proof.
  induction lines as [|line lines IH]; intros Hf v; [discriminate|].
  cbn [forallb] in Hf. cbn [loop_with].
  destruct (returns re_search kw ic line) eqn:Hl.
  - cbn [andb] in Hf.
    destruct (IH Hf (snd (turn A H v line)))
      as (done & l & rest & r & E & Hd & Hb & Hloop & Hr).
    exists (line :: done), l, rest, r.
    split; [now rewrite E|]. split; [cbn [forallb]; now rewrite Hl|].
    split; [exact Hb|]. split; [|exact Hr].
    rewrite (iteration_with_returns re_search kw ic kw_truthy v line Hl).
    cbn [turns]. destruct (turn A H v line) as [o v1]. cbn [mbind fst snd] in *.
    rewrite Hloop. destruct (turns A H v1 done) as [o2 v2]. cbn [fst snd].
    now rewrite app_assoc.
  - destruct (iteration_with_fails re_search kw ic kw_truthy v line Hl)
      as (r & Hit & Hr).
    exists [], line, lines, r. split; [reflexivity|]. split; [reflexivity|].
    split; [exact Hl|]. split; [|exact Hr].
    rewrite Hit. cbn [turns fst snd app].
    destruct r as [x| |]; [now destruct (Hr x)| |]; reflexivity.
Qed.
End AnyStops.

(** C8.  For every keyword, whatever [re.search] does with it: when the
    match test returns on every line read, the loop runs to its end and the
    lines after it print the header held back, highlighted, exactly when an
    entry is pending with its header still held and its matched flag set,
    and nothing otherwise; that is exactly when the last line read is a
    header that matches.  When the match test raises on some line, the loop
    stops at the first such line, and the lines after the loop are not run:
    nothing is printed after what the loop has printed. *)
Theorem end_of_stream_flush
        (re_search : string -> string -> bool -> Re.result bool)
        (kw : string) (ic : bool) (lines : list string) :
  truthy kw = true ->
  (forallb (returns re_search kw ic) lines = true /\
   exists out v,
     loop_with re_search (Some kw) ic initial lines = (out, Re.Ok v) /\
     stream_logs_with re_search (Some kw) ic lines =
       ((out ++ end_flush (highlighted kw ic) v)%list, Re.Ok tt) /\
     end_flush (highlighted kw ic) v =
       stream_end_output (accepts re_search kw ic) (highlighted kw ic) lines)
  \/
  (forallb (returns re_search kw ic) lines = false /\
   exists done line rest out r,
     lines = (done ++ line :: rest)%list /\
     forallb (returns re_search kw ic) done = true /\
     returns re_search kw ic line = false /\
     loop_with re_search (Some kw) ic initial lines = (out, r) /\
     (forall v, r <> Re.Ok v) /\
     out =
       (fst (turns (accepts re_search kw ic) (highlighted kw ic) initial done)
        ++ (if is_new_log_entry line
            then end_flush (highlighted kw ic)
                   (snd (turns (accepts re_search kw ic) (highlighted kw ic)
                               initial done))
            else []))%list /\
     stdout (stream_logs_with re_search (Some kw) ic lines) = out).
Proof.
  intros Hk. destruct (forallb (returns re_search kw ic) lines) eqn:Hr.
  - left. split; [reflexivity|].
    exists (fst (turns (accepts re_search kw ic) (highlighted kw ic)
                       initial lines)),
           (snd (turns (accepts re_search kw ic) (highlighted kw ic)
                       initial lines)).
    split; [apply (loop_with_returns re_search kw ic Hk lines Hr)|]. split.
    + rewrite (stream_logs_with_returns re_search kw ic Hk lines Hr).
      unfold out_of.
      now destruct (turns (accepts re_search kw ic) (highlighted kw ic)
                          initial lines).
    + rewrite end_flush_last. unfold stream_end_output.
      now destruct (rev lines).
  - right. split; [reflexivity|].
    destruct (loop_with_stops re_search kw ic Hk lines Hr initial)
      as (done & line & rest & r & E & Hd & Hl & Hloop & Hnot).
    exists done, line, rest. eexists. exists r.
    split; [exact E|]. split; [exact Hd|]. split; [exact Hl|].
    split; [exact Hloop|]. split; [exact Hnot|]. split; [reflexivity|].
    unfold stream_logs_with. rewrite Hloop.
    destruct r as [v| |]; [now destruct (Hnot v)| |]; reflexivity.
Qed.

(** C9.  For every keyword, whatever [re.search] does with it: a logical
    entry (a header and the continuation lines up to the next header or the
    end of the stream) holds its header at most once in what it contributes
    to the output: nothing at all, or the highlighted header followed only
    by highlighted continuation lines.  When the match test returns on every
    line the output is the output for the lines before, then that
    contribution, then the output for the lines after; in every case it is
    an initial part of that.  So a header printed when the entry became
    sticky is printed neither at the next header nor at the end of the
    stream. *)
Theorem header_once_per_entry
        (re_search : string -> string -> bool -> Re.result bool)
        (kw : string) (ic : bool)
        (pre : list string) (h : string) (conts rest : list string) :
  truthy kw = true ->
  is_new_log_entry h = true ->
  Forall (fun c => is_new_log_entry c = false) conts ->
  match rest with [] => True | h' :: _ => is_new_log_entry h' = true end ->
  (forallb (returns re_search kw ic) (pre ++ h :: conts ++ rest)%list = true ->
   stdout (stream_logs_with re_search (Some kw) ic
                            (pre ++ h :: conts ++ rest)%list) =
   (stdout (stream_logs_with re_search (Some kw) ic pre) ++
    entry_output (accepts re_search kw ic) (highlighted kw ic) h conts ++
    stdout (stream_logs_with re_search (Some kw) ic rest))%list) /\
  (exists more,
      (stdout (stream_logs_with re_search (Some kw) ic
                                (pre ++ h :: conts ++ rest)%list) ++ more)%list =
      (out_of (accepts re_search kw ic) (highlighted kw ic) pre ++
       entry_output (accepts re_search kw ic) (highlighted kw ic) h conts ++
       out_of (accepts re_search kw ic) (highlighted kw ic) rest)%list).
Proof.
  intros Hk Hh Hcs Hrest.
  assert (Hsplit :
    out_of (accepts re_search kw ic) (highlighted kw ic)
           (pre ++ h :: conts ++ rest)%list =
    (out_of (accepts re_search kw ic) (highlighted kw ic) pre ++
     entry_output (accepts re_search kw ic) (highlighted kw ic) h conts ++
     out_of (accepts re_search kw ic) (highlighted kw ic) rest)%list).
  { rewrite (out_of_header _ _ pre h (conts ++ rest) Hh). f_equal.
    destruct rest as [|h' rest'].
    - rewrite !app_nil_r. apply out_of_entry; assumption.
    - change (h :: conts ++ h' :: rest')%list
        with ((h :: conts) ++ h' :: rest')%list.
      rewrite (out_of_header _ _ (h :: conts) h' rest' Hrest). f_equal.
      apply out_of_entry; assumption. }
  split.
  - intros Hr.
    assert (Hpre : forallb (returns re_search kw ic) pre = true /\
                   forallb (returns re_search kw ic) rest = true).
    { rewrite forallb_app in Hr. apply andb_prop in Hr. destruct Hr as [Hp Hr].
      split; [exact Hp|]. cbn [forallb] in Hr. apply andb_prop in Hr.
      destruct Hr as [_ Hr]. rewrite forallb_app in Hr.
      apply andb_prop in Hr. apply Hr. }
    destruct Hpre as [Hp Hq].
    rewrite !(stream_logs_with_returns re_search kw ic Hk _ Hr),
            !(stream_logs_with_returns re_search kw ic Hk _ Hp),
            !(stream_logs_with_returns re_search kw ic Hk _ Hq).
    exact Hsplit.
  - rewrite <- Hsplit. apply stream_logs_with_prefix. exact Hk.
Qed.

(** C10.  With a keyword configured, whatever [re.search] does with it, the
    output is the highlighter applied to a selection of the input lines:
    positions of the input, each used at most once, in the order of
    arrival. *)
Theorem output_selects_input_lines
        (re_search : string -> string -> bool -> Re.result bool)
        (kw : string) (ic : bool) (lines : list string) :
  truthy kw = true ->
  exists sel,
    Spec.subsequence sel lines /\
    Forall2 (fun line out => highlight kw ic line = Re.Ok out)
            sel (stdout (stream_logs_with re_search (Some kw) ic lines)).
Proof.
  intros Hk.
  destruct (stream_logs_with_select re_search kw ic Hk lines)
    as (sel & Hs & ->).
  exists sel. split; [assumption | apply highlighted_all].
Qed.

(** X7.  A match test that accepts more never prints fewer lines: for two
    runs on the same input (two keywords, or one keyword without and with
    [ignore_case]), when on every line both tests return and the second
    accepts the line if the first does, the lines selected by the first run
    are a selection of the lines selected by the second (each run printing
    its selection highlighted its own way). *)
Theorem wider_match_prints_no_less
        (re_search : string -> string -> bool -> Re.result bool)
        (kw : string) (ic : bool) (kw' : string) (ic' : bool)
        (lines : list string) :
  truthy kw = true ->
  truthy kw' = true ->
  forallb (no_less re_search kw ic kw' ic') lines = true ->
  exists sel sel',
    Spec.subsequence sel sel' /\
    Spec.subsequence sel' lines /\
    Forall2 (fun line o => highlight kw ic line = Re.Ok o)
            sel (stdout (stream_logs_with re_search (Some kw) ic lines)) /\
    Forall2 (fun line o => highlight kw' ic' line = Re.Ok o)
            sel' (stdout (stream_logs_with re_search (Some kw') ic' lines)).
Proof.
  intros Hk Hk' Hle.
  assert (Hall : Forall (fun l => no_less re_search kw ic kw' ic' l = true)
                        lines)
    by (apply Forall_forall; now apply forallb_forall).
  assert (Hr : forallb (returns re_search kw ic) lines = true).
  { apply forallb_forall. intros l Hin.
    rewrite Forall_forall in Hall. specialize (Hall l Hin).
    unfold no_less, returns in *.
    destruct (re_search kw l ic); [reflexivity|discriminate|discriminate]. }
  assert (Hr' : forallb (returns re_search kw' ic') lines = true).
  { apply forallb_forall. intros l Hin.
    rewrite Forall_forall in Hall. specialize (Hall l Hin).
    unfold no_less, returns in *.
    destruct (re_search kw l ic); try discriminate.
    destruct (re_search kw' l ic'); [reflexivity|discriminate|discriminate]. }
  rewrite (stream_logs_with_returns re_search kw ic Hk lines Hr),
          (stream_logs_with_returns re_search kw' ic' Hk' lines Hr').
  unfold stdout. cbn [fst].
  rewrite (out_of_map _ (highlighted kw ic)),
          (out_of_map _ (highlighted kw' ic')).
  exists (out_of (accepts re_search kw ic) (fun l => l) lines),
         (out_of (accepts re_search kw' ic') (fun l => l) lines).
  split.
  - apply out_of_monotone. apply Forall_forall. intros l Hin.
    rewrite Forall_forall in Hall. specialize (Hall l Hin).
    unfold no_less, accepts in *.
    destruct (re_search kw l ic) as [[|]| |]; try discriminate;
      destruct (re_search kw' l ic') as [[|]| |]; try discriminate;
      auto.
  - split.
    + destruct (out_of_select (accepts re_search kw' ic') (fun l => l) lines)
        as (sel & Ho & Hs).
      rewrite Ho, map_id. exact Hs.
    + split; apply highlighted_all.
Qed.

Lemma end_of_stream_flush_witness :
  truthy "ERROR" = true /\
  ((forallb (returns Re.search "ERROR" false) ["2024-01-01 ERROR boom"] = true /\
    exists out v,
      loop_with Re.search (Some "ERROR") false initial
                ["2024-01-01 ERROR boom"] = (out, Re.Ok v) /\
      stream_logs_with Re.search (Some "ERROR") false
                       ["2024-01-01 ERROR boom"] =
        ((out ++ end_flush (highlighted "ERROR" false) v)%list, Re.Ok tt) /\
      end_flush (highlighted "ERROR" false) v =
        stream_end_output (accepts Re.search "ERROR" false)
                          (highlighted "ERROR" false)
                          ["2024-01-01 ERROR boom"])
   \/
   (forallb (returns Re.search "ERROR" false) ["2024-01-01 ERROR boom"] = false /\
    exists done line rest out r,
      ["2024-01-01 ERROR boom"] = (done ++ line :: rest)%list /\
      forallb (returns Re.search "ERROR" false) done = true /\
      returns Re.search "ERROR" false line = false /\
      loop_with Re.search (Some "ERROR") false initial
                ["2024-01-01 ERROR boom"] = (out, r) /\
      (forall v, r <> Re.Ok v) /\
      out =
        (fst (turns (accepts Re.search "ERROR" false)
                    (highlighted "ERROR" false) initial done)
         ++ (if is_new_log_entry line
             then end_flush (highlighted "ERROR" false)
                    (snd (turns (accepts Re.search "ERROR" false)
                                (highlighted "ERROR" false) initial done))
             else []))%list /\
      stdout (stream_logs_with Re.search (Some "ERROR") false
                               ["2024-01-01 ERROR boom"]) = out)).
Proof.
  split; [reflexivity|].
  apply (end_of_stream_flush Re.search "ERROR" false ["2024-01-01 ERROR boom"]).
  reflexivity.
Defined.

Lemma header_once_per_entry_witness :
  truthy "ERROR" = true /\
  is_new_log_entry example_header = true /\
  Forall (fun c => is_new_log_entry c = false) [example_frame2; example_frame1] /\
  is_new_log_entry "2024-01-02 ERROR again" = true /\
  (forallb (returns Re.search "ERROR" false)
           (["2024-01-01 ERROR first"] ++
            example_header :: [example_frame2; example_frame1] ++
            ["2024-01-02 ERROR again"])%list = true ->
   stdout (stream_logs_with Re.search (Some "ERROR") false
             (["2024-01-01 ERROR first"] ++
              example_header :: [example_frame2; example_frame1] ++
              ["2024-01-02 ERROR again"])%list) =
   (stdout (stream_logs_with Re.search (Some "ERROR") false
                             ["2024-01-01 ERROR first"]) ++
    entry_output (accepts Re.search "ERROR" false) (highlighted "ERROR" false)
                 example_header [example_frame2; example_frame1] ++
    stdout (stream_logs_with Re.search (Some "ERROR") false
                             ["2024-01-02 ERROR again"]))%list) /\
  (exists more,
      (stdout (stream_logs_with Re.search (Some "ERROR") false
                 (["2024-01-01 ERROR first"] ++
                  example_header :: [example_frame2; example_frame1] ++
                  ["2024-01-02 ERROR again"])%list) ++ more)%list =
      (out_of (accepts Re.search "ERROR" false) (highlighted "ERROR" false)
              ["2024-01-01 ERROR first"] ++
       entry_output (accepts Re.search "ERROR" false)
                    (highlighted "ERROR" false)
                    example_header [example_frame2; example_frame1] ++
       out_of (accepts Re.search "ERROR" false) (highlighted "ERROR" false)
              ["2024-01-02 ERROR again"])%list).
Proof.
  split; [reflexivity|]. split; [reflexivity|].
  assert (Hc : Forall (fun c => is_new_log_entry c = false)
                      [example_frame2; example_frame1])
    by (repeat (apply Forall_cons; [reflexivity|]); apply Forall_nil).
  split; [exact Hc|]. split; [reflexivity|].
  apply (header_once_per_entry Re.search "ERROR" false
           ["2024-01-01 ERROR first"] example_header
           [example_frame2; example_frame1] ["2024-01-02 ERROR again"]
           eq_refl eq_refl Hc eq_refl).
Defined.

Lemma output_selects_input_lines_witness :
  truthy "ERROR" = true /\
  exists sel,
    Spec.subsequence sel example_entry /\
    Forall2 (fun line out => highlight "ERROR" false line = Re.Ok out)
            sel (stdout (stream_logs_with Re.search (Some "ERROR") false
                                          example_entry)).
Proof.
  split; [reflexivity|].
  apply (output_selects_input_lines Re.search "ERROR" false example_entry).
  reflexivity.
Defined.

Lemma wider_match_prints_no_less_witness :
  truthy "error" = true /\
  truthy "error" = true /\
  forallb (no_less Re.search "error" false "error" true) example_entry = true /\
  exists sel sel',
    Spec.subsequence sel sel' /\
    Spec.subsequence sel' example_entry /\
    Forall2 (fun line o => highlight "error" false line = Re.Ok o)
            sel (stdout (stream_logs_with Re.search (Some "error") false
                                          example_entry)) /\
    Forall2 (fun line o => highlight "error" true line = Re.Ok o)
            sel' (stdout (stream_logs_with Re.search (Some "error") true
                                           example_entry)).
Proof.
  split; [reflexivity|]. split; [reflexivity|]. split; [reflexivity|].
  apply (wider_match_prints_no_less Re.search "error" false "error" true
           example_entry); reflexivity.
Defined.

(** ** The classifier on any text *)

Module UniFacts.

Lemma hyphen_code (c : ascii) :
  N.eqb (N_of_ascii c) Uni.HYPHEN = Ascii.eqb c "-"%char.
Proof. destruct c as [[] [] [] [] [] [] [] []]; reflexivity. Qed.

Lemma match_date_pattern (digit : N -> bool) (line : Uni.text) :
  Uni.is_new_log_entry digit line =
  match line with
  | d1 :: d2 :: d3 :: d4 :: h1 :: d5 :: d6 :: h2 :: d7 :: d8 :: _ =>
      digit d1 && digit d2 && digit d3 && digit d4 &&
      N.eqb h1 Uni.HYPHEN && digit d5 && digit d6 &&
      N.eqb h2 Uni.HYPHEN && digit d7 && digit d8
  | _ => false
  end.
Proof.
  unfold Uni.is_new_log_entry, Uni.date_pattern.
  destruct line
    as [|d1 [|d2 [|d3 [|d4 [|h1 [|d5 [|d6 [|h2 [|d7 [|d8 rest]]]]]]]]]];
    cbn [Uni.match_at]; rewrite ?andb_false_r; try reflexivity.
  rewrite andb_true_r, !andb_assoc. reflexivity.
Qed.

Lemma header_iff_date_prefix (digit : N -> bool) (line : Uni.text) :
  Uni.is_new_log_entry digit line = true <-> Uni.date_prefix digit line.
Proof.
  rewrite match_date_pattern. unfold Uni.date_prefix. split.
  - intros H.
    destruct line
      as [|d1 [|d2 [|d3 [|d4 [|h1 [|d5 [|d6 [|h2 [|d7 [|d8 rest]]]]]]]]]];
      try discriminate H.
    do 9 (apply andb_prop in H; destruct H as [H ?]).
    repeat match goal with
           | E : N.eqb _ _ = true |- _ => apply N.eqb_eq in E; subst
           end.
    exists d1, d2, d3, d4, d5, d6, d7, d8, rest.
    split; [reflexivity|].
    repeat (apply Forall_cons; [assumption|]). apply Forall_nil.
  - intros (d1 & d2 & d3 & d4 & d5 & d6 & d7 & d8 & rest & -> & HF).
    repeat match goal with
           | E : Forall _ (_ :: _) |- _ => inversion E; subst; clear E
           end.
    cbn [app].
    repeat match goal with
           | E : digit _ = true |- _ => rewrite E; clear E
           end.
    reflexivity.
Qed.

Lemma latin1_agrees (digit : N -> bool) :
  (forall c : ascii, digit (N_of_ascii c) = is_digit c) ->
  forall s : list ascii,
    Uni.is_new_log_entry digit (map N_of_ascii s) = date_prefixb s.
Proof.
  intros Hd s. rewrite match_date_pattern. unfold date_prefixb.
  destruct s
    as [|d1 [|d2 [|d3 [|d4 [|h1 [|d5 [|d6 [|h2 [|d7 [|d8 rest]]]]]]]]]];
    try reflexivity.
  cbn [map]. now rewrite !Hd, !hyphen_code.
Qed.

End UniFacts.

(** C6, amended.  A line is classified as a header if and only if its first
    ten characters are four digits, a hyphen, two digits, a hyphen and two
    digits, where a digit is any character in the class of [\d] on [str]:
    every Unicode decimal digit, not only 0-9.  There is no calendar
    validation ([9999-99-99] is a header), and the classifier is a total
    function of the line.  On text within U+0000..U+00FF it is the
    classifier that the loop is modelled with. *)
Theorem header_iff_unicode_date_prefix (digit : N -> bool) :
  (forall c : ascii, digit (N_of_ascii c) = is_digit c) ->
  (forall line : Uni.text,
      Uni.is_new_log_entry digit line = true <-> Uni.date_prefix digit line) /\
  Uni.is_new_log_entry digit (Uni.code_points "9999-99-99") = true /\
  (forall line : string,
      Uni.is_new_log_entry digit (Uni.code_points line) = is_new_log_entry line).
Proof.
  intros Hd.
  assert (Hl : forall line : string,
             Uni.is_new_log_entry digit (Uni.code_points line)
             = is_new_log_entry line).
  { intros line. unfold Uni.code_points.
    rewrite (UniFacts.latin1_agrees digit Hd).
    unfold is_new_log_entry, Re.p_match.
    change (Re.p_ignore_case date_pattern) with false.
    now rewrite date_pattern_match. }
  split; [apply UniFacts.header_iff_date_prefix|].
  split; [now rewrite Hl | exact Hl].
Qed.

Lemma isdecimal_latin1 (c : ascii) : Uni.isdecimal (N_of_ascii c) = is_digit c.
Proof. destruct c as [[] [] [] [] [] [] [] []]; vm_compute; reflexivity. Qed.

Lemma header_iff_unicode_date_prefix_witness :
  (forall c : ascii, Uni.isdecimal (N_of_ascii c) = is_digit c) /\
  (forall line : Uni.text,
      Uni.is_new_log_entry Uni.isdecimal line = true
      <-> Uni.date_prefix Uni.isdecimal line) /\
  Uni.is_new_log_entry Uni.isdecimal (Uni.code_points "9999-99-99") = true /\
  (forall line : string,
      Uni.is_new_log_entry Uni.isdecimal (Uni.code_points line)
      = is_new_log_entry line).
Proof.
  split; [exact isdecimal_latin1|].
  apply (header_iff_unicode_date_prefix Uni.isdecimal isdecimal_latin1).
Defined.

(** C6 as written, with the digits read as 0-9: a line that begins with a
    date in Arabic-Indic digits is classified as a header, and its first ten
    characters are not four of the digits 0-9, a hyphen, two digits, a
    hyphen and two digits. *)
Lemma arabic_indic_date_is_header :
  Uni.is_new_log_entry Uni.isdecimal Uni.arabic_indic_date = true /\
  ~ Uni.date_prefix Uni.ascii_digit Uni.arabic_indic_date.
Proof.
  split; [reflexivity|].
  intros (d1 & d2 & d3 & d4 & d5 & d6 & d7 & d8 & rest & E & HF).
  unfold Uni.arabic_indic_date in E. cbn [app] in E.
  injection E as <- _. inversion HF as [|? ? Hd _]. discriminate Hd.
Qed.

(** ** [main], whatever [re.search] does *)

Section Modelled.
Variable re_search : string -> string -> bool -> Re.result bool.
Hypothesis search_modelled :
  forall kw line ic, re_search kw line ic <> Re.Unmodelled.







End Modelled.


